(** * The worker message transport of xxdk-wasm

    A shallow embedding of [indexedDbWorker/worker.go]: the handler registry
    ([RegisterHandler], [getNextID], [getHandler]), the outbound and inbound
    paths ([SendMessage], [receiveMessage]) and the start-up handshake
    ([NewWorkerHandler]).

    The registry is the pair of Go maps of [WorkerHandler]; every method that
    takes [wh.mux] is one atomic state transformer.  Goroutines started with
    [go] are recorded as spawned tasks, together with the registry as it is
    at the moment of the [go] statement. *)

From Stdlib Require Import ZArith NArith List Ascii String Lia Sorted.
From stdpp Require Import gmap strings list fin_maps.

Local Open Scope N_scope.

(** ** Basic data *)

(** [type Tag string]: a Go string is a sequence of bytes, as is [string]. *)
Abbreviation Tag := string (only parsing).

(** A byte slice's contents. *)
Abbreviation bytes := (list ascii) (only parsing).

(** [uint64] arithmetic: [x++] wraps around at [2^64]. *)
Definition uint64_modulus : N := 2 ^ 64.

Definition uint64_incr (x : N) : N := (x + 1) mod uint64_modulus.

(** [const InitID = uint64(0)] *)
Definition InitID : N := 0.

(** [workerInitialConnectionTimeout = 16 * time.Second], a [time.Duration]
    counted in nanoseconds. *)
Definition time_Second : Z := 1000000000%Z.
Definition workerInitialConnectionTimeout : Z := (16 * time_Second)%Z.

(** [WorkerMessage]: the envelope.  [Data] is a [[]byte]; [None] is the nil
    slice, which Go's JSON encoder tells apart from an empty one. *)
Record WorkerMessage := mkMsg {
  msgTag : Tag;
  msgID : N;
  msgData : option bytes
}.

(** Errors returned by the functions of the file. *)
Inductive json_error :=
| SyntaxError          (* the frame is not a JSON text *)
| UnmarshalTypeError   (* a JSON value does not fit the Go field *)
| CorruptInputError.   (* the data string is not base64 *)

Inductive error :=
| ErrNoHandlersForTag (tag : Tag)         (* "no handlers found for tag %q" *)
| ErrNoHandlerForID (tag : Tag) (id : N)  (* "no %q handler found for ID %d" *)
| ErrUnmarshal (e : json_error)           (* error of json.Unmarshal *)
| ErrTimeout.                             (* "timed out after %s waiting ..." *)

(** ** The wire codec

    [SendMessage] and [receiveMessage] hand the envelope to Go's
    [encoding/json] ([json.Marshal], [json.Unmarshal]).  The library is not
    part of the repository; the definitions below follow its documented
    behaviour (Go 1.17, the version of [go.mod]) for the one type that
    crosses the wire, [WorkerMessage]: a struct of a string, a [uint64] and
    a [[]byte] with the keys "tag", "id" and "data".  Masks and shifts of
    the library are written as remainders, products and quotients by powers
    of two. *)

Definition code (c : ascii) : N := N_of_ascii c.
Definition chr (n : N) : ascii := ascii_of_N n.

Definition lit (s : string) : bytes := list_ascii_of_string s.

Definition in_range (lo hi : N) (c : ascii) : bool :=
  (lo <=? code c) && (code c <=? hi).

Module utf8.

(** [utf8.RuneError], U+FFFD. *)
Definition RuneError : N := 0xFFFD.

(** [utf8.DecodeRune]: the first rune of [p] and its width in bytes;
    [(RuneError, 1)] when [p] does not start with a well-formed encoding,
    [(RuneError, 0)] when it is empty. *)
Definition DecodeRune (p : bytes) : N * nat :=
  match p with
  | [] => (RuneError, 0%nat)
  | c0 :: r =>
    let p0 := code c0 in
    if p0 <? 0x80 then (p0, 1%nat)
    else if (0xC2 <=? p0) && (p0 <=? 0xDF) then
      match r with
      | c1 :: _ =>
        if in_range 0x80 0xBF c1
        then ((p0 mod 32) * 64 + code c1 mod 64, 2%nat)
        else (RuneError, 1%nat)
      | _ => (RuneError, 1%nat)
      end
    else if (0xE0 <=? p0) && (p0 <=? 0xEF) then
      let lo := if p0 =? 0xE0 then 0xA0 else 0x80 in
      let hi := if p0 =? 0xED then 0x9F else 0xBF in
      match r with
      | c1 :: c2 :: _ =>
        if in_range lo hi c1 && in_range 0x80 0xBF c2
        then ((p0 mod 16) * 4096 + (code c1 mod 64) * 64 + code c2 mod 64,
              3%nat)
        else (RuneError, 1%nat)
      | _ => (RuneError, 1%nat)
      end
    else if (0xF0 <=? p0) && (p0 <=? 0xF4) then
      let lo := if p0 =? 0xF0 then 0x90 else 0x80 in
      let hi := if p0 =? 0xF4 then 0x8F else 0xBF in
      match r with
      | c1 :: c2 :: c3 :: _ =>
        if in_range lo hi c1 && in_range 0x80 0xBF c2
           && in_range 0x80 0xBF c3
        then ((p0 mod 8) * 262144 + (code c1 mod 64) * 4096
              + (code c2 mod 64) * 64 + code c3 mod 64, 4%nat)
        else (RuneError, 1%nat)
      | _ => (RuneError, 1%nat)
      end
    else (RuneError, 1%nat)
  end.

(** [utf8.EncodeRune]; surrogates and values above U+10FFFF are written as
    [RuneError]. *)
Definition EncodeRune (r : N) : bytes :=
  if r <? 0x80 then [chr r]
  else if r <? 0x800 then [chr (0xC0 + r / 64); chr (0x80 + r mod 64)]
  else if (0x10FFFF <? r) || ((0xD800 <=? r) && (r <=? 0xDFFF)) then
    [chr 0xEF; chr 0xBF; chr 0xBD]
  else if r <? 0x10000 then
    [chr (0xE0 + r / 4096); chr (0x80 + (r / 64) mod 64);
     chr (0x80 + r mod 64)]
  else
    [chr (0xF0 + r / 262144); chr (0x80 + (r / 4096) mod 64);
     chr (0x80 + (r / 64) mod 64); chr (0x80 + r mod 64)].

(** The loop of [utf8.ValidString]: every rune decodes without error. *)
Fixpoint valid_loop (fuel : nat) (s : bytes) : bool :=
  match fuel with
  | O => match s with [] => true | _ => false end
  | S fuel' =>
    match s with
    | [] => true
    | _ :: _ =>
      let '(r, size) := DecodeRune s in
      if (r =? RuneError) && (size =? 1)%nat then false
      else valid_loop fuel' (drop size s)
    end
  end.

Definition ValidString (s : string) : bool :=
  valid_loop (String.length s) (lit s).

End utf8.

Module strconv.

Definition digit (n : N) : ascii := chr (48 + n).

(** The digit loop of [strconv.FormatUint(_, 10)]: least significant digit
    first, prepended to [acc]. *)
Fixpoint format_loop (fuel : nat) (n : N) (acc : bytes) : bytes :=
  match fuel with
  | O => acc
  | S fuel' =>
    let acc' := digit (n mod 10) :: acc in
    if n <? 10 then acc' else format_loop fuel' (n / 10) acc'
  end.

(** A [uint64] has at most 20 decimal digits. *)
Definition FormatUint (n : N) : bytes := format_loop 20 n [].

Definition is_digit (c : ascii) : bool := in_range 48 57 c.

(** The digit loop of [strconv.ParseUint(_, 10, 64)]; [None] on a byte that
    is no digit. *)
Fixpoint parse_loop (s : bytes) (acc : N) : option N :=
  match s with
  | [] => Some acc
  | c :: r =>
    if is_digit c then parse_loop r (acc * 10 + (code c - 48)) else None
  end.

(** [strconv.ParseUint(s, 10, 64)]: [None] stands for its syntax and range
    errors. *)
Definition ParseUint (s : bytes) (bitSize : N) : option N :=
  match s with
  | [] => None
  | _ =>
    match parse_loop s 0 with
    | Some n => if n <? 2 ^ bitSize then Some n else None
    | None => None
    end
  end.

(** The shape of a number written by [format_loop]: digits, the first of
    them a zero only when the number is zero, that [parse_loop] reads back. *)
Definition written (n : N) (D : list ascii) : Prop :=
  Forall (λ c, is_digit c = true) D
  ∧ (∀ a, parse_loop D a = Some (a * 10 ^ N.of_nat (length D) + n))
  ∧ ((n = 0 ∧ D = [digit 0])
     ∨ (n ≠ 0 ∧ ∃ c D', D = c :: D' ∧ in_range 49 57 c = true)).

End strconv.

Module base64.

Definition alphabet : bytes :=
  lit "ABCDEFGHIJKLMNOPQRSTUVWXYZabcdefghijklmnopqrstuvwxyz0123456789+/".

Definition padChar : ascii := "="%char.

Definition enc (n : N) : ascii := nth (N.to_nat n) alphabet "A"%char.

(** The decode map of [StdEncoding]. *)
Definition dec (c : ascii) : option N :=
  let n := code c in
  if in_range 65 90 c then Some (n - 65)
  else if in_range 97 122 c then Some (n - 97 + 26)
  else if in_range 48 57 c then Some (n - 48 + 52)
  else if n =? 43 then Some 62
  else if n =? 47 then Some 63
  else None.

(** [StdEncoding.EncodeToString]. *)
Fixpoint Encode (src : bytes) : bytes :=
  match src with
  | [] => []
  | [a] =>
    let v := code a * 65536 in
    [enc (v / 262144); enc ((v / 4096) mod 64); padChar; padChar]
  | [a; b] =>
    let v := code a * 65536 + code b * 256 in
    [enc (v / 262144); enc ((v / 4096) mod 64); enc ((v / 64) mod 64);
     padChar]
  | a :: b :: c :: rest =>
    let v := code a * 65536 + code b * 256 + code c in
    enc (v / 262144) :: enc ((v / 4096) mod 64) :: enc ((v / 64) mod 64)
      :: enc (v mod 64) :: Encode rest
  end.

Definition is_newline (c : ascii) : bool :=
  (code c =? 10) || (code c =? 13).

(** The quanta of [StdEncoding.Decode], on input without line breaks.  The
    last quantum may be padded; the unused low bits of a padded quantum are
    not checked (the encoding is not strict). *)
Fixpoint decode_quanta (src : bytes) : option bytes :=
  match src with
  | [] => Some []
  | c0 :: c1 :: c2 :: c3 :: rest =>
    match dec c0, dec c1 with
    | Some d0, Some d1 =>
      match dec c2, dec c3 with
      | Some d2, Some d3 =>
        let v := d0 * 262144 + d1 * 4096 + d2 * 64 + d3 in
        out ← decode_quanta rest;
        Some (chr (v / 65536) :: chr ((v / 256) mod 256) :: chr (v mod 256)
                :: out)
      | Some d2, None =>
        if Ascii.eqb c3 padChar && bool_decide (rest = []) then
          let v := d0 * 262144 + d1 * 4096 + d2 * 64 in
          Some [chr (v / 65536); chr ((v / 256) mod 256)]
        else None
      | None, _ =>
        if Ascii.eqb c2 padChar && Ascii.eqb c3 padChar
           && bool_decide (rest = []) then
          let v := d0 * 262144 + d1 * 4096 in
          Some [chr (v / 65536)]
        else None
      end
    | _, _ => None
    end
  | _ => None
  end.

(** [StdEncoding.Decode]: carriage returns and line feeds are skipped
    wherever they stand; [None] stands for [CorruptInputError]. *)
Definition Decode (src : bytes) : option bytes :=
  decode_quanta (filter (λ c, is_newline c = false) src).

(** [StdEncoding.DecodedLen]. *)
Definition DecodedLen (n : nat) : nat := (n / 4 * 3)%nat.

End base64.

Module json.

Local Set Warnings "-register-all".

(** *** Encoding *)

Definition hex (n : N) : ascii :=
  nth (N.to_nat n) (lit "0123456789abcdef") "0"%char.

(** [htmlSafeSet]: the ASCII bytes the encoder copies as they are when HTML
    escaping is on, as it is for [json.Marshal]. *)
Definition htmlSafe (c : ascii) : bool :=
  let b := code c in
  (0x20 <=? b) && (b <? 0x80)
  && negb ((b =? 34) || (b =? 92) || (b =? 60) || (b =? 62) || (b =? 38)).

(** A byte that the base64 encoder can write: a letter of the alphabet or
    the padding; it is no line break, and the JSON coder copies it. *)
Definition plain (c : ascii) : bool :=
  htmlSafe c && negb (base64.is_newline c).

(** The escape written for an ASCII byte outside [htmlSafeSet]. *)
Definition escape (c : ascii) : bytes :=
  "\"%char ::
  match code c with
  | 92 | 34 => [c]
  | 10 => ["n"%char]
  | 13 => ["r"%char]
  | 9 => ["t"%char]
  | b => lit "u00" ++ [hex (b / 16); hex (b mod 16)]
  end.

(** The loop of [encodeState.string]: one byte or one rune per turn. *)
Fixpoint string_loop (fuel : nat) (s : bytes) : bytes :=
  match fuel with
  | O => []
  | S fuel' =>
    match s with
    | [] => []
    | c :: r =>
      if code c <? 0x80 then
        (if htmlSafe c then [c] else escape c) ++ string_loop fuel' r
      else
        let '(rn, size) := utf8.DecodeRune s in
        if (rn =? utf8.RuneError) && (size =? 1)%nat then
          lit "\ufffd" ++ string_loop fuel' r
        else if (rn =? 0x2028) || (rn =? 0x2029) then
          lit "\u202" ++ [hex (rn mod 16)] ++ string_loop fuel' (drop size s)
        else take size s ++ string_loop fuel' (drop size s)
    end
  end.

Definition quote : ascii := chr 34.

Definition encode_string (s : bytes) : bytes :=
  quote :: string_loop (length s) s ++ [quote].

(** A [[]byte] is written as [null] when nil and as a base64 string
    otherwise. *)
Definition encode_bytes (b : option bytes) : bytes :=
  match b with
  | None => lit "null"
  | Some b => quote :: base64.Encode b ++ [quote]
  end.

(** A quoted field name and its colon. *)
Definition key (name : string) : bytes := quote :: lit name ++ [quote; chr 58].

(** [json.Marshal] of a [WorkerMessage]: the fields in declaration order
    under their tags.  It has no error case for this type. *)
Definition Marshal (msg : WorkerMessage) : bytes :=
  lit "{" ++ key "tag" ++ encode_string (lit (msgTag msg))
  ++ lit "," ++ key "id" ++ strconv.FormatUint (msgID msg)
  ++ lit "," ++ key "data" ++ encode_bytes (msgData msg)
  ++ lit "}".

(** *** Decoding: the JSON text *)

Inductive value :=
| JNull
| JBool (b : bool)
| JNum (literal : bytes)
| JStr (s : bytes)
| JArr (elems : list value)
| JObj (members : list (bytes * value)).

Definition is_space (c : ascii) : bool :=
  let b := code c in (b =? 32) || (b =? 9) || (b =? 13) || (b =? 10).

Fixpoint skip_space (s : bytes) : bytes :=
  match s with
  | c :: r => if is_space c then skip_space r else s
  | [] => []
  end.

Definition hexval (c : ascii) : option N :=
  if in_range 48 57 c then Some (code c - 48)
  else if in_range 97 102 c then Some (code c - 87)
  else if in_range 65 70 c then Some (code c - 55)
  else None.

(** [getu4]: the code unit of a leading [\uXXXX]; [None] stands for -1. *)
Definition getu4 (s : bytes) : option N :=
  match s with
  | c :: u :: h0 :: h1 :: h2 :: h3 :: _ =>
    if (code c =? 92) && (code u =? 117) then
      a ← hexval h0; b ← hexval h1; c ← hexval h2; d ← hexval h3;
      Some (a * 4096 + b * 256 + c * 16 + d)
    else None
  | _ => None
  end.

(** The byte denoted by a one-letter escape. *)
Definition unescape (e : ascii) : option ascii :=
  match code e with
  | 34 | 92 | 47 => Some e
  | 98 => Some (chr 8)
  | 102 => Some (chr 12)
  | 110 => Some (chr 10)
  | 114 => Some (chr 13)
  | 116 => Some (chr 9)
  | _ => None
  end.

Definition is_surrogate (r : N) : bool := (0xD800 <=? r) && (r <? 0xE000).

(** [utf16.DecodeRune]; [None] stands for the replacement character it
    returns on anything but a high surrogate followed by a low one. *)
Definition utf16_DecodeRune (r1 : N) (r2 : option N) : option N :=
  match r2 with
  | Some r2 =>
    if (0xD800 <=? r1) && (r1 <? 0xDC00) && (0xDC00 <=? r2) && (r2 <? 0xE000)
    then Some ((r1 - 0xD800) * 1024 + (r2 - 0xDC00) + 0x10000)
    else None
  | None => None
  end.

Definition prepend (b : bytes) (k : option (bytes * bytes))
    : option (bytes * bytes) :=
  '(out, rest) ← k; Some (b ++ out, rest).

(** A string literal after its opening quote: the text it denotes (the
    result of [unquote]) and what follows the closing quote.  [None] where
    the scanner rejects the literal. *)
Fixpoint string_body (fuel : nat) (s : bytes) : option (bytes * bytes) :=
  match fuel with
  | O => None
  | S fuel' =>
    match s with
    | [] => None
    | c :: r =>
      if code c =? 34 then Some ([], r)
      else if code c =? 92 then
        match r with
        | [] => None
        | e :: r' =>
          if code e =? 117 then
            match getu4 s with
            | None => None
            | Some rr =>
              let after := drop 4 r' in
              if is_surrogate rr then
                match utf16_DecodeRune rr (getu4 after) with
                | Some rn =>
                  prepend (utf8.EncodeRune rn)
                          (string_body fuel' (drop 6 after))
                | None =>
                  prepend (utf8.EncodeRune utf8.RuneError)
                          (string_body fuel' after)
                end
              else prepend (utf8.EncodeRune rr) (string_body fuel' after)
            end
          else
            match unescape e with
            | Some b => prepend [b] (string_body fuel' r')
            | None => None
            end
        end
      else if code c <? 0x20 then None
      else if code c <? 0x80 then prepend [c] (string_body fuel' r)
      else
        let '(rn, size) := utf8.DecodeRune s in
        prepend (utf8.EncodeRune rn) (string_body fuel' (drop size s))
    end
  end.

Definition string_literal (s : bytes) : option (bytes * bytes) :=
  string_body (S (length s)) s.

(** The longest prefix of digits and the rest. *)
Fixpoint digits (s : bytes) : bytes * bytes :=
  match s with
  | c :: r =>
    if strconv.is_digit c then let '(ds, r') := digits r in (c :: ds, r')
    else ([], s)
  | [] => ([], [])
  end.

(** One or more digits. *)
Definition digits1 (s : bytes) : option (bytes * bytes) :=
  match digits s with
  | ([], _) => None
  | p => Some p
  end.

(** A number literal and the rest: an optional minus sign; a zero, or a
    non-zero digit and digits; optionally a point and one or more digits;
    optionally an exponent mark, a sign and one or more digits. *)
Definition number (s : bytes) : option (bytes * bytes) :=
  let '(sign, s) :=
    match s with
    | c :: r => if code c =? 45 then ([c], r) else ([], s)
    | [] => ([], s)
    end in
  '(int, s) ←
    match s with
    | c :: r =>
      if code c =? 48 then Some ([c], r)
      else if in_range 49 57 c then
        let '(ds, r') := digits r in Some (c :: ds, r')
      else None
    | [] => None
    end;
  '(frac, s) ←
    match s with
    | c :: r =>
      if code c =? 46 then '(ds, r') ← digits1 r; Some (c :: ds, r')
      else Some ([], s)
    | [] => Some ([], s)
    end;
  '(exp, s) ←
    match s with
    | c :: r =>
      if (code c =? 101) || (code c =? 69) then
        let '(sg, r) :=
          match r with
          | c' :: r' =>
            if (code c' =? 43) || (code c' =? 45) then ([c'], r')
            else ([], r)
          | [] => ([], r)
          end in
        '(ds, r') ← digits1 r; Some (c :: sg ++ ds, r')
      else Some ([], s)
    | [] => Some ([], s)
    end;
  Some (sign ++ int ++ frac ++ exp, s).

(** [maxNestingDepth] of the scanner. *)
Definition maxNestingDepth : N := 10000.

(** Does [s] start with the bytes of [w]?  Then what follows them. *)
Fixpoint strip_prefix (w s : bytes) : option bytes :=
  match w, s with
  | [], _ => Some s
  | a :: w', b :: s' => if Ascii.eqb a b then strip_prefix w' s' else None
  | _ :: _, [] => None
  end.

(** One JSON value, after optional white space, and the rest of the input;
    [None] is a syntax error.  [depth] counts the arrays and objects that
    are open. *)
Fixpoint parse_value (fuel : nat) (depth : N) (s : bytes)
    : option (value * bytes) :=
  match fuel with
  | O => None
  | S fuel' =>
    match skip_space s with
    | [] => None
    | c :: r =>
      if code c =? 123 then
        if maxNestingDepth <=? depth then None
        else
          match skip_space r with
          | c' :: r' =>
            if code c' =? 125 then Some (JObj [], r')
            else '(ms, r'') ← parse_members fuel' (depth + 1) r;
                 Some (JObj ms, r'')
          | [] => None
          end
      else if code c =? 91 then
        if maxNestingDepth <=? depth then None
        else
          match skip_space r with
          | c' :: r' =>
            if code c' =? 93 then Some (JArr [], r')
            else '(vs, r'') ← parse_elements fuel' (depth + 1) r;
                 Some (JArr vs, r'')
          | [] => None
          end
      else if code c =? 34 then
        '(str, r') ← string_literal r; Some (JStr str, r')
      else if (code c =? 45) || strconv.is_digit c then
        '(n, r') ← number (c :: r); Some (JNum n, r')
      else
        match strip_prefix (lit "true") (c :: r) with
        | Some r' => Some (JBool true, r')
        | None =>
          match strip_prefix (lit "false") (c :: r) with
          | Some r' => Some (JBool false, r')
          | None =>
            match strip_prefix (lit "null") (c :: r) with
            | Some r' => Some (JNull, r')
            | None => None
            end
          end
        end
    end
  end
with parse_members (fuel : nat) (depth : N) (s : bytes)
    : option (list (bytes * value) * bytes) :=
  match fuel with
  | O => None
  | S fuel' =>
    match skip_space s with
    | c :: r =>
      if code c =? 34 then
        '(key, r1) ← string_literal r;
        match skip_space r1 with
        | c1 :: r2 =>
          if code c1 =? 58 then
            '(v, r3) ← parse_value fuel' depth r2;
            match skip_space r3 with
            | c3 :: r4 =>
              if code c3 =? 44 then
                '(ms, r5) ← parse_members fuel' depth r4;
                Some ((key, v) :: ms, r5)
              else if code c3 =? 125 then Some ([(key, v)], r4)
              else None
            | [] => None
            end
          else None
        | [] => None
        end
      else None
    | [] => None
    end
  end
with parse_elements (fuel : nat) (depth : N) (s : bytes)
    : option (list value * bytes) :=
  match fuel with
  | O => None
  | S fuel' =>
    '(v, r1) ← parse_value fuel' depth s;
    match skip_space r1 with
    | c :: r2 =>
      if code c =? 44 then
        '(vs, r3) ← parse_elements fuel' depth r2; Some (v :: vs, r3)
      else if code c =? 93 then Some ([v], r2)
      else None
    | [] => None
    end
  end.

(** [checkValid]: the whole input is one JSON value between white space. *)
Definition parse (data : bytes) : option value :=
  '(v, rest) ← parse_value (S (length data)) 0 data;
  match skip_space rest with
  | [] => Some v
  | _ => None
  end.

(** *** Decoding: the value into the struct *)

(** [b & caseMask]: bit 5 cleared. *)
Definition fold_case (c : ascii) : ascii :=
  let '(Ascii b0 b1 b2 b3 b4 _ b6 b7) := c in
  Ascii b0 b1 b2 b3 b4 false b6 b7.

(** The ASCII lower-case form of a byte: a capital letter gets bit 5. *)
Definition lower (c : ascii) : ascii :=
  if in_range 65 90 c then chr (code c + 32) else c.

(** [simpleLetterEqualFold], the fold function of a field name made of
    letters other than k and s: equal lengths and equal bytes up to
    [caseMask]. *)
Definition simpleLetterEqualFold (s t : bytes) : bool :=
  bool_decide (fold_case <$> s = fold_case <$> t).

Inductive field := FTag | FID | FData.

(** The field a key selects: its name matches exactly or, failing that,
    under the field's fold function; other keys select nothing. *)
Definition find_field (k : bytes) : option field :=
  if simpleLetterEqualFold (lit "tag") k then Some FTag
  else if simpleLetterEqualFold (lit "id") k then Some FID
  else if simpleLetterEqualFold (lit "data") k then Some FData
  else None.

(** A byte slice: the backing array (its length is the capacity) and the
    length of the slice. *)
Record slice := mkSlice { arr : bytes; len : nat }.

(** The struct being filled. *)
Record target := mkTarget {
  tTag : bytes;
  tID : N;
  tData : option slice
}.

Definition zero_target : target := mkTarget [] 0 None.

Definition result (A : Type) : Type := A + json_error.

(** The slice grown for index [i], as [decodeState.array] does. *)
Definition grow (sl : slice) (i : nat) : slice :=
  let cap := length (arr sl) in
  let a :=
    if (cap <=? i)%nat then
      let newcap := (cap + cap / 2)%nat in
      let newcap := if (newcap <? 4)%nat then 4%nat else newcap in
      take (len sl) (arr sl) ++ replicate (newcap - len sl) (chr 0)
    else arr sl in
  mkSlice a (if (len sl <=? i)%nat then S i else len sl).

(** A JSON value stored into the [uint8] at index [i]. *)
Definition store_elem (sl : slice) (i : nat) (v : value) : result slice :=
  match v with
  | JNull => inl sl
  | JNum l =>
    match strconv.ParseUint l 64 with
    | Some n =>
      if n <? 256 then inl (mkSlice (<[i := chr n]> (arr sl)) (len sl))
      else inr UnmarshalTypeError
    | None => inr UnmarshalTypeError
    end
  | _ => inr UnmarshalTypeError
  end.

Fixpoint array_loop (elems : list value) (i : nat) (sl : slice)
    : result (nat * slice) :=
  match elems with
  | [] => inl (i, sl)
  | v :: vs =>
    match store_elem (grow sl i) i v with
    | inl sl' => array_loop vs (S i) sl'
    | inr e => inr e
    end
  end.

(** A JSON array decoded into the slice [sl] (nil counts as empty). *)
Definition decode_array (elems : list value) (sl : option slice)
    : result slice :=
  match array_loop elems 0 (default (mkSlice [] 0) sl) with
  | inl (i, sl') =>
    if (i =? 0)%nat then inl (mkSlice [] 0)
    else inl (mkSlice (arr sl') (if (i <? len sl')%nat then i else len sl'))
  | inr e => inr e
  end.

(** One member of the object stored into the struct. *)
Definition decode_member (t : target) (m : bytes * value) : result target :=
  let '(k, v) := m in
  match find_field k with
  | None => inl t
  | Some FTag =>
    match v with
    | JNull => inl t
    | JStr s => inl (mkTarget s (tID t) (tData t))
    | _ => inr UnmarshalTypeError
    end
  | Some FID =>
    match v with
    | JNull => inl t
    | JNum l =>
      match strconv.ParseUint l 64 with
      | Some n => inl (mkTarget (tTag t) n (tData t))
      | None => inr UnmarshalTypeError
      end
    | _ => inr UnmarshalTypeError
    end
  | Some FData =>
    match v with
    | JNull => inl (mkTarget (tTag t) (tID t) None)
    | JStr s =>
      match base64.Decode s with
      | Some b =>
        let cap := base64.DecodedLen (length s) in
        inl (mkTarget (tTag t) (tID t)
               (Some (mkSlice (b ++ replicate (cap - length b) (chr 0))
                              (length b))))
      | None => inr CorruptInputError
      end
    | JArr elems =>
      match decode_array elems (tData t) with
      | inl sl => inl (mkTarget (tTag t) (tID t) (Some sl))
      | inr e => inr e
      end
    | _ => inr UnmarshalTypeError
    end
  end.

Fixpoint decode_members (t : target) (ms : list (bytes * value))
    : result target :=
  match ms with
  | [] => inl t
  | m :: ms' =>
    match decode_member t m with
    | inl t' => decode_members t' ms'
    | inr e => inr e
    end
  end.

Definition message_of (t : target) : WorkerMessage :=
  mkMsg (string_of_list_ascii (tTag t)) (tID t)
        ((λ sl, take (len sl) (arr sl)) <$> tData t).

(** [json.Unmarshal(data, &msg)] into a zero [WorkerMessage]: the message,
    or the error returned. *)
Definition Unmarshal (data : bytes) : result WorkerMessage :=
  match parse data with
  | None => inr SyntaxError
  | Some JNull => inl (message_of zero_target)
  | Some (JObj ms) =>
    match decode_members zero_target ms with
    | inl t => inl (message_of t)
    | inr e => inr e
    end
  | Some _ => inr UnmarshalTypeError
  end.

(** The JSON value the encoder writes for a [[]byte]. *)
Definition data_value (b : option bytes) : value :=
  match b with
  | None => JNull
  | Some b => JStr (base64.Encode b)
  end.

Definition field_eqb (f g : field) : bool :=
  match f, g with
  | FTag, FTag | FID, FID | FData, FData => true
  | _, _ => false
  end.

(** Does some member of the object select the field [f]? *)
Definition present (f : field) (ms : list (bytes * value)) : bool :=
  existsb (λ m, match find_field m.1 with
                | Some g => field_eqb f g
                | None => false
                end) ms.

End json.

(** ** The options of a new worker *)

(** [newWorkerOptions] (worker.go:301): the properties set on the options
    object handed to the [Worker] constructor; every value is a string,
    and a property is set only when its argument is not empty. *)
Definition newWorkerOptions (workerType credentials name : string)
    : gmap string string :=
  let options : gmap string string := ∅ in
  let options :=
    if bool_decide (workerType ≠ EmptyString)
    then <["type" := workerType]> options else options in
  let options :=
    if bool_decide (credentials ≠ EmptyString)
    then <["credentials" := credentials]> options else options in
  let options :=
    if bool_decide (name ≠ EmptyString)
    then <["name" := name]> options else options in
  options.

Section Registry.

(** Callbacks supplied by callers are opaque closures. *)
Context {U : Type}.

(** [tag.go] is not part of the sources at hand; the table of one-shot tags
    and the readiness tag it declares are parameters here. *)
Variable deleteAfterReceiving : gset string.
Variable ReadyTag : Tag.

(** A non-nil [HandlerFn] is either the closure built by [NewWorkerHandler],
    [func([]byte) { ready <- struct{}{} }], or a caller's closure. *)
Inductive Callback :=
| SignalReady
| UserFn (u : U).

(** [type HandlerFn func(data []byte)]; [None] is the nil function value. *)
Definition HandlerFn : Type := option Callback.

(** The fields of [WorkerHandler] that carry registry state.  [worker]
    (the JS object), [name] (used in log lines only) and [mux] are left out:
    each locked method below is a single atomic step. *)
Record WorkerHandler := mkWH {
  handlers : gmap string (gmap N HandlerFn);
  handlerIDs : gmap string N
}.

Definition set_handlers (m : gmap string (gmap N HandlerFn))
    (wh : WorkerHandler) : WorkerHandler :=
  mkWH m (handlerIDs wh).

Definition set_handlerIDs (m : gmap string N) (wh : WorkerHandler)
    : WorkerHandler :=
  mkWH (handlers wh) m.

(** The registry [NewWorkerHandler] starts from: two empty maps. *)
Definition emptyWH : WorkerHandler := mkWH ∅ ∅.

(** The handler stored at [(tag, id)], if any. *)
Definition handlerAt (wh : WorkerHandler) (tag : Tag) (id : N)
    : option HandlerFn :=
  handlers wh !! tag ≫= λ hs, hs !! id.

(** The value read by [wh.handlerIDs[tag]]: the zero value when absent. *)
Definition nextID (wh : WorkerHandler) (tag : Tag) : N :=
  default 0 (handlerIDs wh !! tag).

(** ** Spawned work *)

Inductive task :=
| PostMessage (payload : bytes)                   (* go wh.postMessage(...) *)
| RunHandler (h : HandlerFn) (data : option bytes). (* go handler(msg.Data) *)

(** ** A state monad over the registry that logs the tasks it spawns

    Each spawned task is logged with the registry as it is when the [go]
    statement runs. *)
Definition Run (A : Type) : Type :=
  WorkerHandler → A * WorkerHandler * list (WorkerHandler * task).

Definition ret {A} (a : A) : Run A := λ wh, (a, wh, []).

Definition bind {A B} (m : Run A) (k : A → Run B) : Run B :=
  λ wh, let '(a, wh1, l1) := m wh in
        let '(b, wh2, l2) := k a wh1 in
        (b, wh2, l1 ++ l2).

Definition get_wh : Run WorkerHandler := λ wh, (wh, wh, []).

Definition modify_wh (f : WorkerHandler → WorkerHandler) : Run unit :=
  λ wh, (tt, f wh, []).

Definition go (t : task) : Run unit := λ wh, (tt, wh, [(wh, t)]).

Notation "'let*' x ':=' m 'in' k" := (bind m (λ x, k))
  (at level 10, x name, m at level 100, k at level 200).
(** ** The registry operations *)

(** [getNextID] (worker.go:214). *)
Definition getNextID (tag : Tag) : Run N :=
  let* wh := get_wh in
  let* _ := match handlerIDs wh !! tag with
            | None =>
              modify_wh (set_handlerIDs (<[tag := InitID]> (handlerIDs wh)))
            | Some _ => ret tt
            end in
  let* wh := get_wh in
  let id := nextID wh tag in
  let* _ :=
    modify_wh (set_handlerIDs (<[tag := uint64_incr id]> (handlerIDs wh))) in
  ret id.

(** [RegisterHandler] (worker.go:192). *)
Definition RegisterHandler (tag : Tag) (id : N) (autoID : bool)
    (handler : HandlerFn) : Run N :=
  let* id := (if autoID then getNextID tag else ret id) in
  let* wh := get_wh in
  let* _ := match handlers wh !! tag with
            | None => modify_wh (set_handlers (<[tag := ∅]> (handlers wh)))
            | Some _ => ret tt
            end in
  let* wh := get_wh in
  let* _ := modify_wh (set_handlers
              (<[tag := <[id := handler]> (default ∅ (handlers wh !! tag))]>
                 (handlers wh))) in
  ret id.

(** [getHandler] (worker.go:165).  Go returns the pair (handler, error); one
    of the two is nil, hence the sum. *)
Definition getHandler (tag : Tag) (id : N) : Run (HandlerFn + error) :=
  let* wh := get_wh in
  match handlers wh !! tag with
  | None => ret (inr (ErrNoHandlersForTag tag))
  | Some hs =>
    match hs !! id with
    | None => ret (inr (ErrNoHandlerForID tag id))
    | Some handler =>
      let* _ :=
        if bool_decide (tag ∈ deleteAfterReceiving) then
          let hs' := delete id hs in
          let* _ := modify_wh (set_handlers (<[tag := hs']> (handlers wh))) in
          if bool_decide (size hs' = 0%nat) then
            let* wh := get_wh in
            modify_wh (set_handlers (delete tag (handlers wh)))
          else ret tt
        else ret tt in
      ret (inl handler)
    end
  end.

(** ** The registries the operations leave *)

(** The registry left by [RegisterHandler] once the ID is chosen. *)
Definition registered (tag : string) (id : N) (h : HandlerFn) (wh : WorkerHandler) : WorkerHandler :=
  set_handlers
    (<[tag := <[id := h]> (default ∅ (handlers wh !! tag))]> (handlers wh)) wh.

(** The registry left by [getHandler] for a one-shot tag with a handler at
    [(tag, id)] in [hs], the tag's map. *)
Definition removed (tag : string) (id : N) (hs : gmap N HandlerFn) (wh : WorkerHandler)
    : WorkerHandler :=
  if bool_decide (size (delete id hs) = 0%nat)
  then set_handlers (delete tag (handlers wh)) wh
  else set_handlers (<[tag := delete id hs]> (handlers wh)) wh.

(** ** Sending and receiving *)

(** [SendMessage] (worker.go:117).  [json.Marshal] has no error case for a
    [WorkerMessage], so the panic branch is dead. *)
Definition SendMessage (tag : Tag) (data : option bytes)
    (receptionHandler : HandlerFn) : Run unit :=
  let* id := match receptionHandler with
             | Some _ => RegisterHandler tag 0 true receptionHandler
             | None => ret 0
             end in
  let msg := mkMsg tag id data in
  let payload := json.Marshal msg in
  go (PostMessage payload).

(** [receiveMessage] (worker.go:143): the error returned, if any. *)
Definition receiveMessage (data : bytes) : Run (option error) :=
  match json.Unmarshal data with
  | inr e => ret (Some (ErrUnmarshal e))
  | inl msg =>
    let* r := getHandler (msgTag msg) (msgID msg) in
    match r with
    | inr e => ret (Some e)
    | inl handler =>
      let* _ := go (RunHandler handler (msgData msg)) in
      ret None
    end
  end.

(** ** The handshake *)

(** Was the readiness closure started?  Once it runs it sends on [ready]. *)
Definition signals_ready (spawned : list (WorkerHandler * task)) : bool :=
  existsb (λ p, match p.2 with
                | RunHandler (Some SignalReady) _ => true
                | _ => false
                end) spawned.

(** The [select] of [NewWorkerHandler].  [inbound] lists the frames that the
    message listener receives while the constructor waits, in order of
    arrival, each with its arrival time in nanoseconds after the timer was
    started.  A frame is handled by [receiveMessage] (the listener only logs
    its error); the wait ends with [true] when a frame starts the readiness
    closure, and with [false] when the timer fires first. *)
Fixpoint wait_ready (inbound : list (Z * bytes)) : Run bool :=
  match inbound with
  | [] => ret false
  | (t, frame) :: rest =>
    if (workerInitialConnectionTimeout <=? t)%Z then ret false
    else λ wh,
      let '(_, wh1, l1) := receiveMessage frame wh in
      if signals_ready l1 then (true, wh1, l1)
      else let '(b, wh2, l2) := wait_ready rest wh1 in (b, wh2, l1 ++ l2)
  end.

(** [NewWorkerHandler] (worker.go:81): the pair returned (handle, error),
    then the registry object it built, as it is left when the function
    returns (the JS listeners keep a reference to it), and the goroutines
    started meanwhile. *)
Definition NewWorkerHandler (inbound : list (Z * bytes))
    : (option WorkerHandler * option error)
      * WorkerHandler * list (WorkerHandler * task) :=
  (let* _ := RegisterHandler ReadyTag InitID false (Some SignalReady) in
   let* ready := wait_ready inbound in
   if ready then let* wh := get_wh in ret (Some wh, None)
   else ret (None, Some ErrTimeout)) emptyWH.

(** ** The message listener *)

(** The [message] listener of [addEventListeners] (worker.go:235): the frame
    is handed to [receiveMessage]; the listener returns nil whatever the
    outcome, and an error only makes a line on the error log.  The result
    here is what is logged. *)
Definition messageEvent (data : bytes) : Run (list error) :=
  let* err := receiveMessage data in
  match err with
  | Some e => ret [e]
  | None => ret []
  end.

(** The listener fired on the frames of successive [message] events; the
    errors logged, in order. *)
Fixpoint messageEvents (frames : list bytes) : Run (list error) :=
  match frames with
  | [] => ret []
  | frame :: rest =>
    let* a := messageEvent frame in
    let* b := messageEvents rest in
    ret (a ++ b)
  end.

(** ** Sequences of registry calls *)

(** A call on the registry, from the host or from the message listener. *)
Inductive call :=
| Register (tag : Tag) (id : N) (autoID : bool) (handler : HandlerFn)
| GetHandler (tag : Tag) (id : N).

(** One call; the result lists the (tag, ID) pair the call obtained from
    [getNextID], if it did. *)
Definition run_call (c : call) : Run (list (string * N)) :=
  match c with
  | Register tag id autoID handler =>
    let* r := RegisterHandler tag id autoID handler in
    ret (if autoID then [(tag, r)] else [])
  | GetHandler tag id =>
    let* _ := getHandler tag id in
    ret []
  end.

(** The calls in order; the auto-allocated pairs in order of allocation. *)
Fixpoint run_calls (cs : list call) : Run (list (string * N)) :=
  match cs with
  | [] => ret []
  | c :: cs' =>
    let* a := run_call c in
    let* b := run_calls cs' in
    ret (a ++ b)
  end.

(** Is the call an auto-allocating registration for [tag]? *)
Definition is_auto (tag : Tag) (c : call) : bool :=
  match c with
  | Register tag' _ true _ => bool_decide (tag' = tag)
  | _ => false
  end.

(** The number of auto-allocations for [tag] among the calls. *)
Definition autos (tag : Tag) (cs : list call) : nat :=
  length (List.filter (is_auto tag) cs).

(** The IDs allocated for [tag], in order. *)
Definition ids_of (tag : Tag) (l : list (string * N)) : list N :=
  (filter (λ p, p.1 = tag) l).*2.

(** The tag a call is made for. *)
Definition call_tag (c : call) : Tag :=
  match c with
  | Register tag _ _ _ => tag
  | GetHandler tag _ => tag
  end.

(** Is the call a registration for [tag] under an ID chosen by the caller? *)
Definition is_explicit (tag : Tag) (c : call) : bool :=
  match c with
  | Register tag' _ false _ => bool_decide (tag' = tag)
  | _ => false
  end.

(** * Facts about the registry *)

(** *** The locked methods as single steps *)

Lemma getNextID_spec (tag : string) (wh : WorkerHandler) :
  getNextID tag wh =
    (nextID wh tag,
     set_handlerIDs (<[tag := uint64_incr (nextID wh tag)]> (handlerIDs wh)) wh,
     []).
Proof.
  unfold getNextID, bind, get_wh, modify_wh, ret, nextID, set_handlerIDs.
  destruct (handlerIDs wh !! tag) as [n|] eqn:E; simpl.
  - by rewrite E.
  - by rewrite lookup_insert_eq, insert_insert_eq.
Qed.

Lemma RegisterHandler_explicit (tag : string) (id : N) (h : HandlerFn)
    (wh : WorkerHandler) :
  RegisterHandler tag id false h wh = (id, registered tag id h wh, []).
Proof.
  unfold RegisterHandler, registered, bind, get_wh, modify_wh, ret,
    set_handlers.
  destruct (handlers wh !! tag) as [hs|] eqn:E; simpl.
  - by rewrite E.
  - by rewrite lookup_insert_eq, insert_insert_eq.
Qed.

Lemma RegisterHandler_auto (tag : string) (id : N) (h : HandlerFn) (wh : WorkerHandler) :
  RegisterHandler tag id true h wh =
    (nextID wh tag,
     registered tag (nextID wh tag) h
       (set_handlerIDs
          (<[tag := uint64_incr (nextID wh tag)]> (handlerIDs wh)) wh),
     []).
Proof.
  unfold RegisterHandler, bind. rewrite getNextID_spec.
  unfold registered, get_wh, modify_wh, ret, set_handlers, set_handlerIDs.
  simpl.
  destruct (handlers wh !! tag) as [hs|] eqn:E; simpl.
  - by rewrite E.
  - by rewrite lookup_insert_eq, insert_insert_eq.
Qed.

Lemma handlerAt_registered (tag : string) (id : N) (h : HandlerFn) (wh : WorkerHandler)
    (tag' : string) (id' : N) :
  handlerAt (registered tag id h wh) tag' id' =
    if decide (tag = tag' ∧ id = id') then Some h else handlerAt wh tag' id'.
Proof.
  unfold handlerAt, registered, set_handlers; simpl.
  destruct (decide (tag = tag')) as [->|Ht].
  - rewrite lookup_insert_eq; simpl.
    destruct (decide (id = id')) as [->|Hi].
    + rewrite lookup_insert_eq. by rewrite decide_True.
    + rewrite lookup_insert_ne by done.
      rewrite decide_False by (intros []; congruence).
      by destruct (handlers wh !! tag').
  - rewrite lookup_insert_ne by done.
    by rewrite decide_False by (intros []; congruence).
Qed.

Lemma nextID_registered (tag : string) (id : N) (h : HandlerFn) (wh : WorkerHandler)
    (tag' : string) :
  nextID (registered tag id h wh) tag' = nextID wh tag'.
Proof. done. Qed.

Lemma handlerAt_set_handlerIDs (m : gmap string N) (wh : WorkerHandler) (tag : string)
    (id : N) :
  handlerAt (set_handlerIDs m wh) tag id = handlerAt wh tag id.
Proof. done. Qed.

Lemma getHandler_spec (tag : string) (id : N) (wh : WorkerHandler) :
  getHandler tag id wh =
    match handlers wh !! tag with
    | None => (inr (ErrNoHandlersForTag tag), wh, [])
    | Some hs =>
      match hs !! id with
      | None => (inr (ErrNoHandlerForID tag id), wh, [])
      | Some h =>
        (inl h,
         if bool_decide (tag ∈ deleteAfterReceiving)
         then removed tag id hs wh else wh,
         [])
      end
    end.
Proof.
  unfold getHandler, removed, bind, get_wh, modify_wh, ret,
    set_handlers.
  destruct (handlers wh !! tag) as [hs|]; [|done].
  destruct (hs !! id) as [h|]; [|done].
  destruct (bool_decide (tag ∈ deleteAfterReceiving)); [|by destruct wh].
  destruct (bool_decide (size (delete id hs) = 0%nat)); simpl; [|done].
  by rewrite delete_insert_eq.
Qed.

Lemma handlerAt_removed (tag : string) (id : N) (hs : gmap N HandlerFn)
    (wh : WorkerHandler) (tag' : string) (id' : N) :
  handlers wh !! tag = Some hs →
  handlerAt (removed tag id hs wh) tag' id' =
    if decide (tag = tag' ∧ id = id') then None else handlerAt wh tag' id'.
Proof.
  intros Hhs. unfold handlerAt, removed.
  destruct (bool_decide_reflect (size (delete id hs) = 0%nat)) as [Hsz|Hsz];
    simpl.
  - apply map_size_empty_inv in Hsz.
    destruct (decide (tag = tag')) as [->|Ht].
    + rewrite lookup_delete_eq, Hhs; simpl.
      destruct (decide (id = id')) as [->|Hi].
      * by rewrite decide_True.
      * rewrite decide_False by (intros []; congruence).
        rewrite <- (lookup_delete_ne hs id id') by done.
        by rewrite Hsz, lookup_empty.
    + rewrite lookup_delete_ne by done.
      by rewrite decide_False by (intros []; congruence).
  - destruct (decide (tag = tag')) as [->|Ht].
    + rewrite lookup_insert_eq, Hhs; simpl.
      destruct (decide (id = id')) as [->|Hi].
      * rewrite decide_True by done. apply lookup_delete_eq.
      * rewrite decide_False by (intros []; congruence). by apply lookup_delete_ne.
    + rewrite lookup_insert_ne by done.
      by rewrite decide_False by (intros []; congruence).
Qed.

Lemma nextID_removed (tag : string) (id : N) (hs : gmap N HandlerFn) (wh : WorkerHandler)
    (tag' : string) :
  nextID (removed tag id hs wh) tag' = nextID wh tag'.
Proof. unfold removed. by destruct (bool_decide _). Qed.


(** *** Registration *)

(** C5.  [RegisterHandler] with an explicit ID ([autoID = false]) returns the
    given ID and stores the handler at (tag, id), replacing whatever was
    stored there, without touching any other slot or counter.  With
    [autoID = true] the supplied ID plays no part: the call returns the
    current counter of the tag (zero when the tag has none), stores the
    handler under that ID and leaves the counter incremented (as a
    [uint64]); no other slot or counter changes.  Neither form starts a
    goroutine. *)
Theorem RegisterHandler_stores (wh : WorkerHandler) (tag : string) (id : N)
    (h : HandlerFn) :
  (let '(r, wh', l) := RegisterHandler tag id false h wh in
   r = id ∧ l = [] ∧
   handlerAt wh' tag id = Some h ∧
   (∀ tag' id', ¬ (tag = tag' ∧ id = id') →
      handlerAt wh' tag' id' = handlerAt wh tag' id') ∧
   handlerIDs wh' = handlerIDs wh)
  ∧
  (let '(r, wh', l) := RegisterHandler tag id true h wh in
   r = nextID wh tag ∧ l = [] ∧
   RegisterHandler tag id true h wh = RegisterHandler tag 0 true h wh ∧
   handlerAt wh' tag r = Some h ∧
   nextID wh' tag = uint64_incr r ∧
   (∀ tag' id', ¬ (tag = tag' ∧ r = id') →
      handlerAt wh' tag' id' = handlerAt wh tag' id') ∧
   (∀ tag', tag ≠ tag' → handlerIDs wh' !! tag' = handlerIDs wh !! tag')).
Proof.
  split.
  - rewrite RegisterHandler_explicit. repeat split.
    + rewrite handlerAt_registered. by rewrite decide_True.
    + intros tag' id' Hne. rewrite handlerAt_registered.
      by rewrite decide_False.
  - rewrite !RegisterHandler_auto. repeat split.
    + rewrite handlerAt_registered. by rewrite decide_True.
    + unfold nextID; simpl. by rewrite lookup_insert_eq.
    + intros tag' id' Hne. rewrite handlerAt_registered.
      by rewrite decide_False.
    + intros tag' Hne; simpl. by rewrite lookup_insert_ne.
Qed.

(** *** Lookup *)

(** C6.  [getHandler] fails with the tag-level error ("no handlers found for
    tag") exactly when the registry has no map for the tag, and with the
    ID-level error ("no handler found for ID") exactly when the tag's map
    exists and has no entry for the ID; it fails in no other way, and a
    failed lookup leaves both maps of the registry as they were. *)
Theorem getHandler_errors (wh : WorkerHandler) (tag : string) (id : N) :
  let '(r, wh', l) := getHandler tag id wh in
  (r = inr (ErrNoHandlersForTag tag) ↔ handlers wh !! tag = None) ∧
  (r = inr (ErrNoHandlerForID tag id) ↔
     ∃ hs, handlers wh !! tag = Some hs ∧ hs !! id = None) ∧
  (∀ e, r = inr e →
     (e = ErrNoHandlersForTag tag ∨ e = ErrNoHandlerForID tag id) ∧
     wh' = wh ∧ l = []).
Proof.
  rewrite getHandler_spec.
  destruct (handlers wh !! tag) as [hs|] eqn:Ht.
  - destruct (hs !! id) as [h|] eqn:Hi.
    + split; [done|]. split; [|done].
      split; [done|]. intros (hs' & [= <-] & Hn). congruence.
    + split; [done|]. split.
      * split; [eauto|done].
      * intros e [= <-]. eauto.
  - split; [done|]. split.
    + split; [done|]. intros (hs & Hs & _). done.
    + intros e [= <-]. eauto.
Qed.

(** *** One-shot and persistent handlers *)

(** C3.  Let a handler be stored at (tag, id) and let two inbound frames
    decode to envelopes addressed to (tag, id).  If the tag is one-shot
    (listed in [deleteAfterReceiving]), the first delivery looks the handler
    up, removes it and only then starts it (the registry seen by the [go]
    statement no longer has the entry), and the second delivery returns the
    tag-level or the ID-level lookup error and starts nothing.  If the tag is
    not one-shot, a delivery starts the handler and leaves the registry as
    it was, so the handler stays registered across deliveries. *)
Theorem delivery_one_shot (wh : WorkerHandler) (tag : string) (id : N) (h : HandlerFn)
    (frame1 frame2 : list ascii) (m1 m2 : WorkerMessage) :
  handlerAt wh tag id = Some h →
  json.Unmarshal frame1 = inl m1 → msgTag m1 = tag → msgID m1 = id →
  json.Unmarshal frame2 = inl m2 → msgTag m2 = tag → msgID m2 = id →
  (tag ∈ deleteAfterReceiving →
   ∃ wh1 e,
     receiveMessage frame1 wh = (None, wh1, [(wh1, RunHandler h (msgData m1))])
     ∧ handlerAt wh1 tag id = None
     ∧ receiveMessage frame2 wh1 = (Some e, wh1, [])
     ∧ (e = ErrNoHandlersForTag tag ∨ e = ErrNoHandlerForID tag id))
  ∧
  (tag ∉ deleteAfterReceiving →
   receiveMessage frame1 wh = (None, wh, [(wh, RunHandler h (msgData m1))])
   ∧ receiveMessage frame2 wh = (None, wh, [(wh, RunHandler h (msgData m2))])).
Proof.
  intros Hh H1 Ht1 Hi1 H2 Ht2 Hi2.
  assert (∃ hs, handlers wh !! tag = Some hs ∧ hs !! id = Some h)
    as (hs & Hs & Hid).
  { unfold handlerAt in Hh. destruct (handlers wh !! tag) as [hs|]; [|done].
    eauto. }
  unfold receiveMessage, bind, go, ret.
  rewrite H1, H2, Ht1, Hi1, Ht2, Hi2, !getHandler_spec, Hs, Hid.
  split; intros Hin.
  - rewrite bool_decide_eq_true_2 by done.
    set (wh1 := removed tag id hs wh).
    assert (handlerAt wh1 tag id = None) as Hgone.
    { unfold wh1. rewrite handlerAt_removed by done.
      by rewrite decide_True. }
    pose proof Hgone as Hgone'. unfold handlerAt in Hgone'.
    destruct (handlers wh1 !! tag) as [hs1|] eqn:Hs1; simpl in Hgone'.
    + exists wh1, (ErrNoHandlerForID tag id).
      rewrite getHandler_spec, Hs1, Hgone'. auto.
    + exists wh1, (ErrNoHandlersForTag tag).
      rewrite getHandler_spec, Hs1. auto.
  - rewrite bool_decide_eq_false_2 by done. done.
Qed.

(** *** Sending *)

Lemma SendMessage_handler (tag : string) (data : option (list ascii))
    (cb : Callback) (wh : WorkerHandler) :
  SendMessage tag data (Some cb) wh =
    let wh' := (RegisterHandler tag 0 true (Some cb) wh).1.2 in
    (tt, wh',
     [(wh', PostMessage (json.Marshal (mkMsg tag (nextID wh tag) data)))]).
Proof.
  unfold SendMessage, bind, go. by rewrite RegisterHandler_auto.
Qed.

Lemma SendMessage_nil (tag : string) (data : option (list ascii)) (wh : WorkerHandler) :
  SendMessage tag data None wh =
    (tt, wh, [(wh, PostMessage (json.Marshal (mkMsg tag 0 data)))]).
Proof. done. Qed.

Lemma receiveMessage_found (wh : WorkerHandler) (frame : list ascii) (m : WorkerMessage)
    (h : HandlerFn) :
  json.Unmarshal frame = inl m →
  handlerAt wh (msgTag m) (msgID m) = Some h →
  ∃ wh', receiveMessage frame wh = (None, wh', [(wh', RunHandler h (msgData m))])
    ∧ ∀ tag id,
        handlerAt wh' tag id =
          if decide (msgTag m = tag ∧ msgID m = id)
          then (if bool_decide (msgTag m ∈ deleteAfterReceiving)
                then None else Some h)
          else handlerAt wh tag id.
Proof.
  intros Hm Hh.
  assert (∃ hs, handlers wh !! msgTag m = Some hs ∧ hs !! msgID m = Some h)
    as (hs & Hs & Hid).
  { unfold handlerAt in Hh.
    destruct (handlers wh !! msgTag m) as [hs|]; [|done]. eauto. }
  unfold receiveMessage, bind, go, ret.
  rewrite Hm, getHandler_spec, Hs, Hid.
  eexists; split; [done|]. intros tag id.
  destruct (bool_decide (msgTag m ∈ deleteAfterReceiving)).
  - by apply handlerAt_removed.
  - case_decide as Heq; [|done]. by destruct Heq as [<- <-].
Qed.

(** C4 (amended).  [SendMessage] with a non-nil reception handler registers
    the handler under the ID taken from the tag's counter before it starts
    the goroutine that posts the envelope: the registry seen by that [go]
    statement already holds the handler at (tag, ID), and the envelope
    posted is the encoding of exactly that tag, that ID and the data given.
    A frame addressed to (tag, ID) that is handled from then on finds the
    handler and starts it.  Whether the handler is one-shot is not up to
    [SendMessage]: the delivery removes it when the tag is listed in
    [deleteAfterReceiving] and leaves it registered when it is not. *)
Theorem SendMessage_registers_before_posting (wh : WorkerHandler) (tag : string)
    (data : option (list ascii)) (cb : Callback) (reply : list ascii)
    (m : WorkerMessage) :
  json.Unmarshal reply = inl m → msgTag m = tag → msgID m = nextID wh tag →
  ∃ wh' wh'',
    RegisterHandler tag 0 true (Some cb) wh = (nextID wh tag, wh', [])
    ∧ SendMessage tag data (Some cb) wh =
        (tt, wh',
         [(wh', PostMessage (json.Marshal (mkMsg tag (nextID wh tag) data)))])
    ∧ handlerAt wh' tag (nextID wh tag) = Some (Some cb)
    ∧ receiveMessage reply wh' =
        (None, wh'', [(wh'', RunHandler (Some cb) (msgData m))])
    ∧ (tag ∈ deleteAfterReceiving → handlerAt wh'' tag (nextID wh tag) = None)
    ∧ (tag ∉ deleteAfterReceiving →
         handlerAt wh'' tag (nextID wh tag) = Some (Some cb)).
Proof.
  intros Hm Ht Hi.
  rewrite SendMessage_handler, RegisterHandler_auto; simpl.
  set (wh' := registered tag (nextID wh tag) (Some cb) _).
  assert (handlerAt wh' tag (nextID wh tag) = Some (Some cb)) as Hat.
  { unfold wh'. rewrite handlerAt_registered. by rewrite decide_True. }
  destruct (receiveMessage_found wh' reply m (Some cb) Hm) as (wh'' & Hr & Hat'').
  { by rewrite Ht, Hi. }
  exists wh', wh''. repeat split; try done.
  - intros Hin. rewrite Hat'', decide_True by done.
    by rewrite Ht, bool_decide_eq_true_2.
  - intros Hin. rewrite Hat'', decide_True by done.
    by rewrite Ht, bool_decide_eq_false_2.
Qed.

(** C10.  For a tag whose counter has not been used, the first
    auto-allocated ID is [InitID]: the first [SendMessage] with a reception
    handler stores the handler in the slot (tag, 0), whatever was there, and
    posts an envelope with ID 0, the very bytes that [SendMessage] without a
    handler posts.  In particular a handler registered explicitly at
    (tag, [InitID]), as the readiness handler is, is replaced by it. *)
Theorem first_auto_ID_is_InitID (wh : WorkerHandler) (tag : string)
    (data : option (list ascii)) (cb : Callback) (id0 : N) (h0 : HandlerFn) :
  handlerIDs wh !! tag = None →
  (RegisterHandler tag id0 true (Some cb) wh).1.1 = InitID
  ∧ (∃ wh',
       SendMessage tag data (Some cb) wh =
         (tt, wh',
          [(wh', PostMessage (json.Marshal (mkMsg tag InitID data)))])
       ∧ handlerAt wh' tag InitID = Some (Some cb)
       ∧ (SendMessage tag data None wh).2 =
           [(wh, PostMessage (json.Marshal (mkMsg tag InitID data)))])
  ∧ (let wh0 := (RegisterHandler tag InitID false h0 wh).1.2 in
     handlerAt wh0 tag InitID = Some h0
     ∧ handlerAt (SendMessage tag data (Some cb) wh0).1.2 tag InitID
       = Some (Some cb)).
Proof.
  intros Hnone.
  assert (nextID wh tag = InitID) as Hn by (unfold nextID; by rewrite Hnone).
  split; [|split].
  - by rewrite RegisterHandler_auto.
  - rewrite SendMessage_handler, RegisterHandler_auto, Hn; simpl.
    eexists; split; [done|]. split; [|done].
    rewrite handlerAt_registered. by rewrite decide_True.
  - rewrite RegisterHandler_explicit; simpl. split.
    + rewrite handlerAt_registered. by rewrite decide_True.
    + rewrite SendMessage_handler, RegisterHandler_auto; simpl.
      rewrite nextID_registered, Hn, handlerAt_registered.
      by rewrite decide_True.
Qed.


(** *** The ID counters *)

Lemma run_call_nextID (c : call) (wh : WorkerHandler) (tag : string) :
  nextID wh tag < uint64_modulus →
  let '(l, wh', _) := run_call c wh in
  ids_of tag l = (if is_auto tag c then [nextID wh tag] else [])
  ∧ nextID wh' tag =
      (if is_auto tag c then uint64_incr (nextID wh tag) else nextID wh tag).
Proof.
  intros Hlt. destruct c as [tag' id autoID h|tag' id]; simpl.
  - unfold run_call, bind, ret. destruct autoID.
    + rewrite RegisterHandler_auto; simpl. unfold ids_of.
      destruct (bool_decide_reflect (tag' = tag)) as [->|Hne].
      * rewrite filter_cons_True by done. split; [done|].
        unfold nextID; simpl. by rewrite lookup_insert_eq.
      * rewrite filter_cons_False by done. split; [done|].
        unfold nextID; simpl. by rewrite lookup_insert_ne.
    + rewrite RegisterHandler_explicit; simpl. done.
  - unfold run_call, bind, ret. rewrite getHandler_spec.
    destruct (handlers wh !! tag') as [hs|]; [|done].
    destruct (hs !! id) as [h|]; [|done]. simpl.
    destruct (bool_decide (tag' ∈ deleteAfterReceiving)); [|done].
    split; [done|]. apply nextID_removed.
Qed.

Lemma uint64_incr_lt (n : N) : uint64_incr n < uint64_modulus.
Proof. unfold uint64_incr. apply N.mod_lt. done. Qed.

Lemma ids_of_app (tag : string) (l1 l2 : list (string * N)) :
  ids_of tag (l1 ++ l2) = ids_of tag l1 ++ ids_of tag l2.
Proof. unfold ids_of. by rewrite filter_app, fmap_app. Qed.

Lemma autos_cons (tag : string) (c : call) (cs : list call) :
  autos tag (c :: cs) =
    if is_auto tag c then S (autos tag cs) else autos tag cs.
Proof. unfold autos; simpl. by destruct (is_auto tag c). Qed.

(** The IDs handed out for a tag are the successive values of its counter,
    modulo [2^64]. *)
Lemma run_calls_ids (tag : string) (cs : list call) :
  ∀ wh : WorkerHandler,
    nextID wh tag < uint64_modulus →
    let '(l, wh', _) := run_calls cs wh in
    ids_of tag l =
      (λ k, (nextID wh tag + N.of_nat k) mod uint64_modulus)
        <$> seq 0 (autos tag cs)
    ∧ nextID wh' tag =
        (nextID wh tag + N.of_nat (autos tag cs)) mod uint64_modulus.
Proof.
  induction cs as [|c cs IH]; intros wh Hlt.
  - simpl. unfold ret, autos; simpl. split; [done|].
    rewrite N.add_0_r. by rewrite N.mod_small.
  - simpl. unfold bind.
    pose proof (run_call_nextID c wh tag Hlt) as Hc.
    destruct (run_call c wh) as [[a wh1] l1].
    destruct Hc as [Ha Hn1].
    assert (nextID wh1 tag < uint64_modulus) as Hlt1.
    { rewrite Hn1. destruct (is_auto tag c); [apply uint64_incr_lt|done]. }
    specialize (IH wh1 Hlt1).
    destruct (run_calls cs wh1) as [[b wh2] l2].
    destruct IH as [Hb Hn2]. unfold ret.
    rewrite ids_of_app, Ha, Hb, Hn2, Hn1.
    rewrite autos_cons.
    destruct (is_auto tag c); simpl.
    + split.
      * f_equal; [by rewrite N.add_0_r, N.mod_small|].
        rewrite <- fmap_S_seq, <- list_fmap_compose.
        apply list_fmap_ext. intros _ k _; simpl.
        unfold uint64_incr. rewrite N.Div0.add_mod_idemp_l. f_equal. rewrite ?Nat2N.inj_succ. lia.
      * unfold uint64_incr. rewrite N.Div0.add_mod_idemp_l. f_equal. rewrite ?Nat2N.inj_succ. lia.
    + done.
Qed.

(** C2 (amended).  Take any sequence of registry calls ([RegisterHandler]
    with or without auto-allocation, for any tag, and [getHandler], which
    removes one-shot entries) and any tag whose counter does not wrap around
    during the sequence, that is, whose counter plus the number of its
    auto-allocations stays below [2^64].  Then the IDs auto-allocated for the
    tag are strictly increasing in order of allocation, each lies between
    the counter before and the counter after the sequence, and the tag's
    counter never decreases: it grows by one with each allocation and is
    untouched by everything else. *)
Theorem auto_IDs_strictly_increase (wh : WorkerHandler) (tag : string)
    (cs : list call) :
  nextID wh tag + N.of_nat (autos tag cs) < uint64_modulus →
  let '(l, wh', _) := run_calls cs wh in
  StronglySorted N.lt (ids_of tag l)
  ∧ Forall (λ id, nextID wh tag ≤ id < nextID wh' tag) (ids_of tag l)
  ∧ nextID wh' tag = nextID wh tag + N.of_nat (autos tag cs)
  ∧ ∀ cs1 cs2, cs = cs1 ++ cs2 →
      nextID wh tag ≤ nextID (run_calls cs1 wh).1.2 tag ≤ nextID wh' tag.
Proof.
  intros Hbound.
  assert (nextID wh tag < uint64_modulus) as Hlt by lia.
  pose proof (run_calls_ids tag cs wh Hlt) as Hcs.
  assert (∀ cs1 cs2, cs = cs1 ++ cs2 →
     nextID (run_calls cs1 wh).1.2 tag
       = nextID wh tag + N.of_nat (autos tag cs1)
     ∧ (autos tag cs1 ≤ autos tag cs)%nat) as Hprefix.
  { intros cs1 cs2 ->.
    assert (autos tag cs1 ≤ autos tag (cs1 ++ cs2))%nat as Hle.
    { unfold autos. rewrite List.filter_app, length_app. lia. }
    split; [|done].
    pose proof (run_calls_ids tag cs1 wh Hlt) as H1.
    destruct (run_calls cs1 wh) as [[l1 wh1] t1]; simpl.
    destruct H1 as [_ ->]. apply N.mod_small. lia. }
  destruct (run_calls cs wh) as [[l wh'] t].
  destruct Hcs as [Hids Hn].
  rewrite N.mod_small in Hn by done.
  assert (ids_of tag l = (λ k, nextID wh tag + N.of_nat k)
                           <$> seq 0 (autos tag cs)) as Hids'.
  { rewrite Hids. apply list_fmap_ext. intros i k Hk; simpl.
    apply lookup_seq in Hk as [Hk1 Hk2]. apply N.mod_small. lia. }
  repeat split.
  - rewrite Hids'. clear -wh. generalize 0%nat as s.
    induction (autos tag cs) as [|n IH]; intros s; simpl; constructor.
    + apply IH.
    + apply Forall_fmap, Forall_forall. intros k Hk; simpl.
      apply elem_of_seq in Hk. lia.
  - rewrite Hids', Hn. apply Forall_fmap, Forall_forall. intros k Hk; simpl.
    apply elem_of_seq in Hk. lia.
  - done.
  - destruct (Hprefix cs1 cs2 H) as [-> _]. lia.
  - destruct (Hprefix cs1 cs2 H) as [-> ?]. rewrite Hn. lia.
Qed.

Lemma autos_replicate (tag : string) (n : nat) (id : N) (h : HandlerFn) :
  autos tag (replicate n (Register tag id true h)) = n.
Proof.
  induction n as [|n IH]; [done|].
  simpl replicate. rewrite autos_cons; simpl.
  rewrite bool_decide_eq_true_2 by done. by rewrite IH.
Qed.

(** After [2^64] auto-allocations for one tag the counter is back where it
    started, and the next allocation repeats the first ID. *)
Lemma auto_IDs_wrap (wh : WorkerHandler) (tag : string) (h : HandlerFn)
    (n : nat) :
  nextID wh tag < uint64_modulus →
  N.of_nat n = uint64_modulus →
  ¬ StronglySorted N.lt
      (ids_of tag (run_calls (replicate (S n) (Register tag 0 true h)) wh).1.1).
Proof.
  intros Hlt Hn Hsorted.
  pose proof (run_calls_ids tag (replicate (S n) (Register tag 0 true h))
                wh Hlt) as Hcs.
  destruct (run_calls _ wh) as [[l wh'] t]; simpl in Hsorted.
  destruct Hcs as [Hids _]. rewrite autos_replicate in Hids.
  rewrite Hids in Hsorted. clear Hids.
  change (seq 0 (S n)) with (0%nat :: seq 1 n) in Hsorted.
  rewrite fmap_cons in Hsorted.
  apply StronglySorted_inv in Hsorted as [_ Hall].
  rewrite Forall_fmap, Forall_forall in Hall.
  assert (n ∈ seq 1 n) as Hin.
  { apply elem_of_seq. assert (0 < N.of_nat n) by (rewrite Hn; done). lia. }
  specialize (Hall n Hin). simpl in Hall.
  rewrite Hn, N.add_0_r in Hall.
  rewrite N.mod_small in Hall by done.
  rewrite <- (N.Div0.add_mod_idemp_r _ uint64_modulus) in Hall.
  rewrite N.Div0.mod_same, N.add_0_r in Hall.
  rewrite N.mod_small in Hall by done. lia.
Qed.


(** *** The handshake *)

(** The registry while [NewWorkerHandler] waits: the readiness handler and
    nothing else. *)
Lemma RegisterHandler_ready :
  RegisterHandler ReadyTag InitID false (Some SignalReady) emptyWH
  = (InitID, mkWH {[ReadyTag := {[InitID := Some SignalReady]}]} ∅, []).
Proof.
  rewrite RegisterHandler_explicit. unfold registered, set_handlers; simpl.
  rewrite lookup_empty; simpl. done.
Qed.

(** A frame that is not addressed to (ReadyTag, InitID), or that does not
    decode, leaves the waiting registry as it is and starts nothing. *)
Lemma receiveMessage_waiting (frame : list ascii) :
  let wh : WorkerHandler :=
    mkWH {[ReadyTag := {[InitID := Some SignalReady]}]} ∅ in
  (∀ m, json.Unmarshal frame = inl m →
        ¬ (msgTag m = ReadyTag ∧ msgID m = InitID)) →
  ∃ e, receiveMessage frame wh = (Some e, wh, []).
Proof.
  intros wh Hno. unfold receiveMessage.
  destruct (json.Unmarshal frame) as [m|e]; [|by eexists].
  specialize (Hno m eq_refl).
  unfold bind. rewrite getHandler_spec. unfold wh at 1; simpl.
  destruct (decide (msgTag m = ReadyTag)) as [Ht|Ht].
  - rewrite Ht, lookup_singleton_eq.
    destruct (decide (msgID m = InitID)) as [Hi|Hi]; [tauto|].
    rewrite lookup_singleton_ne by done. by eexists.
  - rewrite lookup_singleton_ne by done. by eexists.
Qed.

Lemma wait_ready_timeout (inbound : list (Z * list ascii)) :
  let wh : WorkerHandler :=
    mkWH {[ReadyTag := {[InitID := Some SignalReady]}]} ∅ in
  (∀ t frame m, (t, frame) ∈ inbound →
     (t < workerInitialConnectionTimeout)%Z →
     json.Unmarshal frame = inl m →
     ¬ (msgTag m = ReadyTag ∧ msgID m = InitID)) →
  wait_ready inbound wh = (false, wh, []).
Proof.
  intros wh. induction inbound as [|[t frame] rest IH]; intros Hno; [done|].
  simpl. destruct (Z.leb_spec workerInitialConnectionTimeout t) as [|Hlt];
    [done|].
  destruct (receiveMessage_waiting frame) as [e He].
  { intros m Hm. eapply Hno; [left|done|done]. }
  fold wh in He. rewrite He; simpl. rewrite IH; [done|].
  intros t' f' m' Hin. apply Hno. by right.
Qed.

(** C7 (amended).  If no frame that arrives within the 16-second window is
    addressed to (ReadyTag, InitID), then [NewWorkerHandler] returns a nil
    handle and the time-out error and has started no handler.  The registry
    it built is not handed to the caller, but nothing is removed from it:
    it still holds the readiness handler at (ReadyTag, InitID), and only
    that handler. *)
Theorem NewWorkerHandler_timeout (inbound : list (Z * list ascii)) :
  (∀ t frame m, (t, frame) ∈ inbound →
     (t < workerInitialConnectionTimeout)%Z →
     json.Unmarshal frame = inl m →
     ¬ (msgTag m = ReadyTag ∧ msgID m = InitID)) →
  workerInitialConnectionTimeout = 16000000000%Z
  ∧ ∃ wh,
      NewWorkerHandler inbound = ((None, Some ErrTimeout), wh, [])
      ∧ handlerAt wh ReadyTag InitID = Some (Some SignalReady)
      ∧ ∀ tag id, ¬ (tag = ReadyTag ∧ id = InitID) → handlerAt wh tag id = None.
Proof.
  intros Hno. split; [done|].
  unfold NewWorkerHandler, bind. rewrite RegisterHandler_ready.
  rewrite (wait_ready_timeout inbound Hno). unfold ret.
  eexists; split; [done|]. unfold handlerAt; simpl. split.
  - by rewrite lookup_singleton_eq; simpl; rewrite lookup_singleton_eq.
  - intros tag id Hne.
    destruct (decide (tag = ReadyTag)) as [->|Ht].
    + rewrite lookup_singleton_eq; simpl.
      apply lookup_singleton_ne. intros <-. tauto.
    + by rewrite lookup_singleton_ne.
Qed.

(** The other branch of the [select]: a frame addressed to
    (ReadyTag, InitID) that arrives in time, with nothing before it, starts
    the readiness closure, and the constructor returns the handle. *)
Lemma NewWorkerHandler_ready (t : Z) (frame : list ascii) (m : WorkerMessage)
    (rest : list (Z * list ascii)) :
  (t < workerInitialConnectionTimeout)%Z →
  json.Unmarshal frame = inl m → msgTag m = ReadyTag → msgID m = InitID →
  ∃ wh, (NewWorkerHandler ((t, frame) :: rest)).1.1 = (Some wh, None).
Proof.
  intros Ht Hm Htag Hid.
  unfold NewWorkerHandler, bind. rewrite RegisterHandler_ready.
  simpl wait_ready.
  destruct (Z.leb_spec workerInitialConnectionTimeout t) as [|_]; [lia|].
  destruct (receiveMessage_found
              (mkWH {[ReadyTag := {[InitID := Some SignalReady]}]} ∅)
              frame m (Some SignalReady) Hm) as (wh' & Hr & _).
  { unfold handlerAt; simpl. rewrite Htag, Hid, lookup_singleton_eq; simpl.
    by rewrite lookup_singleton_eq. }
  rewrite Hr. simpl. by eexists.
Qed.

End Registry.

(** * The registry on concrete inputs *)

(** A run of [delivery_one_shot]: a one-shot table holding "Ready", a
    handler at ("Ready", 0), and the same frame delivered twice. *)
Lemma delivery_one_shot_witness :
  ∃ (wh1 : @WorkerHandler N) (e : error),
    receiveMessage {["Ready"]}
      (json.Marshal (mkMsg "Ready" 0 (Some (lit "hi"))))
      (mkWH {["Ready" := {[0 := Some (UserFn 7)]}]} ∅)
    = (None, wh1, [(wh1, RunHandler (Some (UserFn 7)) (Some (lit "hi")))])
    ∧ handlerAt wh1 "Ready" 0 = None
    ∧ receiveMessage {["Ready"]}
        (json.Marshal (mkMsg "Ready" 0 (Some (lit "hi")))) wh1
      = (Some e, wh1, [])
    ∧ (e = ErrNoHandlersForTag "Ready" ∨ e = ErrNoHandlerForID "Ready" 0).
Proof.
  refine (proj1 (delivery_one_shot {["Ready"]}
            (mkWH {["Ready" := {[0 := Some (UserFn 7)]}]} ∅) "Ready" 0
            (Some (UserFn 7))
            (json.Marshal (mkMsg "Ready" 0 (Some (lit "hi"))))
            (json.Marshal (mkMsg "Ready" 0 (Some (lit "hi"))))
            (mkMsg "Ready" 0 (Some (lit "hi")))
            (mkMsg "Ready" 0 (Some (lit "hi")))
            _ _ _ _ _ _ _) _); vm_compute; reflexivity.
Defined.

(** A run of [SendMessage_registers_before_posting] on the empty registry:
    the reply to the first "echo" request finds its handler; "echo" is not
    in the one-shot table, so the handler stays. *)
Lemma SendMessage_registers_before_posting_witness :
  ∃ wh' wh'' : @WorkerHandler N,
    RegisterHandler "echo" 0 true (Some (UserFn 7)) emptyWH = (0, wh', [])
    ∧ SendMessage "echo" (Some (lit "hi")) (Some (UserFn 7)) emptyWH
      = (tt, wh',
         [(wh', PostMessage
                  (json.Marshal (mkMsg "echo" 0 (Some (lit "hi")))))])
    ∧ handlerAt wh' "echo" 0 = Some (Some (UserFn 7))
    ∧ receiveMessage {["Ready"]}
        (json.Marshal (mkMsg "echo" 0 (Some (lit "ok")))) wh'
      = (None, wh'', [(wh'', RunHandler (Some (UserFn 7)) (Some (lit "ok")))])
    ∧ ("echo" ∈ ({["Ready"]} : gset string) → handlerAt wh'' "echo" 0 = None)
    ∧ ("echo" ∉ ({["Ready"]} : gset string) →
         handlerAt wh'' "echo" 0 = Some (Some (UserFn 7))).
Proof.
  refine (SendMessage_registers_before_posting {["Ready"]} emptyWH "echo"
            (Some (lit "hi")) (UserFn 7)
            (json.Marshal (mkMsg "echo" 0 (Some (lit "ok"))))
            (mkMsg "echo" 0 (Some (lit "ok"))) _ _ _);
    vm_compute; reflexivity.
Defined.

(** The one-shot part of the sentence on [SendMessage] fails whatever the
    table of one-shot tags is: some tag is not in the table, and a handler
    registered by [SendMessage] for that tag is still registered after it
    has been looked up for a delivery. *)
Lemma SendMessage_handler_not_one_shot :
  ¬ ∃ table : gset string,
      ∀ tag : string,
        let wh' := (SendMessage (U := N) tag None (Some (UserFn 7))
                      emptyWH).1.2 in
        handlerAt (getHandler table tag 0 wh').1.2 tag 0 = None.
Proof.
  intros [table Hall].
  specialize (Hall (fresh table)). simpl in Hall.
  rewrite SendMessage_handler, RegisterHandler_auto in Hall. simpl in Hall.
  rewrite getHandler_spec in Hall. simpl in Hall.
  rewrite lookup_insert_eq in Hall. simpl in Hall.
  rewrite lookup_insert_eq in Hall.
  rewrite bool_decide_eq_false_2 in Hall by apply is_fresh.
  simpl in Hall. unfold handlerAt in Hall. simpl in Hall.
  rewrite lookup_insert_eq in Hall. simpl in Hall.
  by rewrite lookup_insert_eq in Hall.
Qed.

(** A run of [first_auto_ID_is_InitID]: on the registry that holds only the
    readiness handler, the first request tagged "Ready" takes its slot. *)
Lemma first_auto_ID_is_InitID_witness :
  (RegisterHandler (U := N) "Ready" 9 true (Some (UserFn 7)) emptyWH).1.1
    = InitID
  ∧ handlerAt
      (SendMessage "Ready" None (Some (UserFn 7))
         (RegisterHandler (U := N) "Ready" InitID false (Some SignalReady)
            emptyWH).1.2).1.2
      "Ready" InitID
    = Some (Some (UserFn 7)).
Proof.
  pose proof (first_auto_ID_is_InitID (U := N) emptyWH "Ready" None
                (UserFn 7) 9 (Some SignalReady) eq_refl) as (H1 & _ & _ & H3).
  exact (conj H1 H3).
Defined.

(** A run of [auto_IDs_strictly_increase]: allocations for "echo" mixed
    with a lookup that removes a one-shot entry, an allocation for another
    tag and an explicit registration. *)
Lemma auto_IDs_strictly_increase_witness :
  StronglySorted N.lt
    (ids_of "echo"
       (run_calls (U := N) {["echo"]}
          [Register "echo" 0 true None; GetHandler "echo" 0;
           Register "echo" 5 true None; Register "x" 0 true None;
           Register "echo" 0 false None; Register "echo" 0 true None]
          emptyWH).1.1).
Proof.
  pose proof (auto_IDs_strictly_increase (U := N) {["echo"]} emptyWH "echo"
                [Register "echo" 0 true None; GetHandler "echo" 0;
                 Register "echo" 5 true None; Register "x" 0 true None;
                 Register "echo" 0 false None; Register "echo" 0 true None])
    as H.
  destruct (run_calls _ _ _) as [[l wh'] t].
  apply H. vm_compute. reflexivity.
Defined.

(** The claim of strictly increasing IDs fails at the wrap-around of the
    [uint64] counter: of [2^64 + 1] auto-allocations for one tag on the
    empty registry, the last returns 0, as the first did. *)
Lemma auto_IDs_repeat_after_wrap :
  ¬ StronglySorted N.lt
      (ids_of "echo"
         (run_calls (U := N) ∅
            (replicate (S (N.to_nat uint64_modulus))
               (Register "echo" 0 true None))
            emptyWH).1.1).
Proof.
  apply auto_IDs_wrap; [vm_compute; reflexivity|apply N2Nat.id].
Qed.

(** A run of [NewWorkerHandler_timeout]: one early frame without a tag and
    one ready frame that comes too late. *)
Lemma NewWorkerHandler_timeout_witness :
  ∃ wh : @WorkerHandler N,
    NewWorkerHandler {["Ready"]} "Ready"
      [(5%Z, lit "{}");
       (17000000000%Z, json.Marshal (mkMsg "Ready" 0 None))]
    = ((None, Some ErrTimeout), wh, [])
    ∧ handlerAt wh "Ready" InitID = Some (Some SignalReady).
Proof.
  destruct (NewWorkerHandler_timeout (U := N) {["Ready"]} "Ready"
              [(5%Z, lit "{}");
               (17000000000%Z, json.Marshal (mkMsg "Ready" 0 None))])
    as (_ & wh & H1 & H2 & _).
  - intros t frame m Hin Ht Hm.
    apply elem_of_cons in Hin as [[= -> ->]|Hin].
    + vm_compute in Hm. injection Hm as <-. vm_compute. intros [? _].
      discriminate.
    + apply elem_of_cons in Hin as [[= -> ->]|Hin].
      * vm_compute in Ht. discriminate.
      * by apply elem_of_nil in Hin.
  - exists wh. exact (conj H1 H2).
Defined.

(** The sentence on the time-out fails on the code: with no frame at all
    the constructor times out, and the registry it leaves still holds the
    readiness handler at (ReadyTag, InitID). *)
Lemma readiness_handler_survives_timeout :
  ¬ (let '(r, wh, _) := NewWorkerHandler (U := N) {["Ready"]} "Ready" [] in
     r = (None, Some ErrTimeout) → handlerAt wh "Ready" InitID = None).
Proof. vm_compute. intros H. specialize (H eq_refl). discriminate. Qed.

(** * The codec *)

Ltac divlia := zify; Z.to_euclidean_division_equations; lia.

Lemma code_lt (c : ascii) : code c < 256.
Proof. apply N_ascii_bounded. Qed.

Lemma chr_code (c : ascii) : chr (code c) = c.
Proof. apply ascii_N_embedding. Qed.

Lemma code_chr (n : N) : n < 256 → code (chr n) = n.
Proof. apply N_ascii_embedding. Qed.

Lemma in_range_spec (lo hi : N) (c : ascii) :
  in_range lo hi c = true ↔ lo ≤ code c ≤ hi.
Proof.
  unfold in_range. rewrite andb_true_iff, !N.leb_le. tauto.
Qed.

Lemma chr_eq (n : N) (c : ascii) : n = code c → chr n = c.
Proof. intros ->. apply chr_code. Qed.

Ltac bytes_eq :=
  repeat match goal with
         | |- _ :: _ = _ :: _ => f_equal
         | |- chr _ = _ => apply chr_eq
         end.

Module utf8_facts.
Import utf8.

Lemma EncodeRune_2 (r : N) :
  0x80 ≤ r < 0x800 →
  EncodeRune r = [chr (0xC0 + r / 64); chr (0x80 + r `mod` 64)].
Proof.
  intros H. unfold EncodeRune.
  destruct (N.ltb_spec r 0x80); [lia|].
  destruct (N.ltb_spec r 0x800); [done|lia].
Qed.

Lemma EncodeRune_3 (r : N) :
  0x800 ≤ r < 0x10000 → ¬ (0xD800 ≤ r ≤ 0xDFFF) →
  EncodeRune r = [chr (0xE0 + r / 4096); chr (0x80 + (r / 64) `mod` 64);
                  chr (0x80 + r `mod` 64)].
Proof.
  intros H Hs. unfold EncodeRune.
  destruct (N.ltb_spec r 0x80); [lia|].
  destruct (N.ltb_spec r 0x800); [lia|].
  destruct (N.ltb_spec 0x10FFFF r); [lia|].
  destruct (N.leb_spec 0xD800 r), (N.leb_spec r 0xDFFF); simpl; try lia;
    (destruct (N.ltb_spec r 0x10000); [done|lia]).
Qed.

Lemma EncodeRune_4 (r : N) :
  0x10000 ≤ r ≤ 0x10FFFF →
  EncodeRune r = [chr (0xF0 + r / 262144); chr (0x80 + (r / 4096) `mod` 64);
                  chr (0x80 + (r / 64) `mod` 64); chr (0x80 + r `mod` 64)].
Proof.
  intros H. unfold EncodeRune.
  destruct (N.ltb_spec r 0x80); [lia|].
  destruct (N.ltb_spec r 0x800); [lia|].
  destruct (N.ltb_spec 0x10FFFF r); [lia|].
  destruct (N.leb_spec 0xD800 r), (N.leb_spec r 0xDFFF); simpl; try lia;
    (destruct (N.ltb_spec r 0x10000); [lia|done]).
Qed.

(** A rune that [DecodeRune] reads without error from a non-ASCII lead byte
    is written back by [EncodeRune] as the very bytes it was read from, and
    what follows those bytes plays no part. *)
Lemma DecodeRune_EncodeRune (c : ascii) (r : list ascii) (rn : N)
    (size : nat) :
  0x80 ≤ code c →
  DecodeRune (c :: r) = (rn, size) →
  ¬ (rn = RuneError ∧ size = 1%nat) →
  EncodeRune rn = take size (c :: r)
  ∧ length (take size (c :: r)) = size
  ∧ (2 ≤ size)%nat
  ∧ 0x80 ≤ rn
  ∧ ∀ Y, DecodeRune (take size (c :: r) ++ Y) = (rn, size).
Proof.
  intros Hc Hdec Hok. unfold DecodeRune in Hdec.
  pose proof (code_lt c) as Hc256.
  destruct (N.ltb_spec (code c) 0x80) as [|_]; [lia|].
  destruct ((0xC2 <=? code c) && (code c <=? 0xDF)) eqn:E2.
  { apply andb_true_iff in E2 as [H1 H2]. apply N.leb_le in H1, H2.
    destruct r as [|c1 r]; [injection Hdec as <- <-; tauto|].
    destruct (in_range 0x80 0xBF c1) eqn:R1;
      [|injection Hdec as <- <-; tauto].
    pose proof R1 as R1'. apply in_range_spec in R1'.
    injection Hdec as <- <-.
    split; [|split; [done|split; [lia|split; [divlia|]]]].
    - rewrite EncodeRune_2 by divlia. simpl. bytes_eq; divlia.
    - intros Y. simpl. unfold DecodeRune.
      destruct (N.ltb_spec (code c) 0x80) as [|_]; [lia|].
      rewrite (proj2 (N.leb_le _ _) H1), (proj2 (N.leb_le _ _) H2); simpl.
      by rewrite R1. }
  destruct ((0xE0 <=? code c) && (code c <=? 0xEF)) eqn:E3.
  { apply andb_true_iff in E3 as [H1 H2]. apply N.leb_le in H1, H2.
    destruct r as [|c1 [|c2 r]]; try (injection Hdec as <- <-; tauto).
    destruct (in_range _ _ c1 && in_range 0x80 0xBF c2) eqn:R;
      [|injection Hdec as <- <-; tauto].
    injection Hdec as <- <-.
    pose proof R as R'. apply andb_true_iff in R' as [R1 R2].
    apply in_range_spec in R1, R2.
    set (rn := code c `mod` 16 * 4096 + code c1 `mod` 64 * 64
               + code c2 `mod` 64).
    assert (0x800 ≤ rn < 0x10000 ∧ ¬ (0xD800 ≤ rn ≤ 0xDFFF)) as [Hrn Hns].
    { unfold rn. revert R1.
      destruct (N.eqb_spec (code c) 0xE0), (N.eqb_spec (code c) 0xED);
        intros R1; divlia. }
    split; [|split; [done|split; [lia|split; [lia|]]]].
    - rewrite EncodeRune_3 by done. simpl. unfold rn in *. revert R1.
      destruct (N.eqb_spec (code c) 0xE0), (N.eqb_spec (code c) 0xED);
        intros R1; bytes_eq; divlia.
    - intros Y. simpl. unfold DecodeRune.
      destruct (N.ltb_spec (code c) 0x80) as [|_]; [lia|].
      rewrite E2.
      rewrite (proj2 (N.leb_le _ _) H1), (proj2 (N.leb_le _ _) H2); simpl.
      by rewrite R. }
  destruct ((0xF0 <=? code c) && (code c <=? 0xF4)) eqn:E4;
    [|injection Hdec as <- <-; tauto].
  apply andb_true_iff in E4 as [H1 H2]. apply N.leb_le in H1, H2.
  destruct r as [|c1 [|c2 [|c3 r]]]; try (injection Hdec as <- <-; tauto).
  destruct (in_range _ _ c1 && in_range 0x80 0xBF c2 && in_range 0x80 0xBF c3)
    eqn:R; [|injection Hdec as <- <-; tauto].
  injection Hdec as <- <-.
  pose proof R as R'. apply andb_true_iff in R' as [R' R3].
  apply andb_true_iff in R' as [R1 R2].
  apply in_range_spec in R1, R2, R3.
  set (rn := code c `mod` 8 * 262144 + code c1 `mod` 64 * 4096
             + code c2 `mod` 64 * 64 + code c3 `mod` 64).
  assert (0x10000 ≤ rn ≤ 0x10FFFF) as Hrn.
  { unfold rn. revert R1.
    destruct (N.eqb_spec (code c) 0xF0), (N.eqb_spec (code c) 0xF4);
      intros R1; divlia. }
  split; [|split; [done|split; [lia|split; [lia|]]]].
  - rewrite EncodeRune_4 by done. simpl. unfold rn in *. revert R1.
    destruct (N.eqb_spec (code c) 0xF0), (N.eqb_spec (code c) 0xF4);
      intros R1; bytes_eq; divlia.
  - intros Y. simpl. unfold DecodeRune.
    destruct (N.ltb_spec (code c) 0x80) as [|_]; [lia|].
    rewrite E2, E3.
    rewrite (proj2 (N.leb_le _ _) H1), (proj2 (N.leb_le _ _) H2); simpl.
    by rewrite R.
Qed.

End utf8_facts.

Module json_string_facts.
Import json.

(** An escape written by the encoder is read back as the byte it stands
    for. *)
Lemma escape_unescape (c : ascii) (fuel : nat) (X : list ascii) :
  code c < 0x80 → htmlSafe c = false →
  string_body (S fuel) (escape c ++ X) = prepend [c] (string_body fuel X).
Proof.
  destruct c as [[] [] [] [] [] [] [] []];
    intros H1 H2; try discriminate H1; try discriminate H2; reflexivity.
Qed.

(** A byte of [htmlSafeSet] is copied by the encoder and by the decoder. *)
Lemma string_body_safe (c : ascii) (fuel : nat) (X : list ascii) :
  htmlSafe c = true →
  string_body (S fuel) (c :: X) = prepend [c] (string_body fuel X).
Proof.
  unfold htmlSafe. intros H. cbn [string_body].
  apply andb_true_iff in H as [H H3]. apply andb_true_iff in H as [H1 H2].
  apply negb_true_iff in H3. rewrite !orb_false_iff in H3.
  destruct H3 as ((((E1 & E2) & _) & _) & _).
  rewrite E1, E2. apply N.leb_le in H1.
  destruct (N.ltb_spec (code c) 32); [lia|]. by rewrite H2.
Qed.

Lemma string_body_quote (fuel : nat) (X : list ascii) :
  string_body (S fuel) (quote :: X) = Some ([], X).
Proof. reflexivity. Qed.

(** The two line separators are escaped by the encoder; the decoder reads
    the escape as the rune. *)
Lemma string_body_u202 (rn : N) (fuel : nat) (X : list ascii) :
  rn = 0x2028 ∨ rn = 0x2029 →
  string_body (S fuel) (lit "\u202" ++ [hex (rn `mod` 16)] ++ X)
  = prepend (utf8.EncodeRune rn) (string_body fuel X).
Proof. intros [->| ->]; reflexivity. Qed.

(** A multi-byte rune is copied by the encoder; the decoder reads it and
    writes it again. *)
Lemma string_body_rune (c : ascii) (r : list ascii) (rn : N) (size : nat)
    (fuel : nat) (X : list ascii) :
  0x80 ≤ code c →
  utf8.DecodeRune (c :: r) = (rn, size) →
  ¬ (rn = utf8.RuneError ∧ size = 1%nat) →
  string_body (S fuel) (take size (c :: r) ++ X)
  = prepend (take size (c :: r)) (string_body fuel X).
Proof.
  intros Hc Hdec Hok.
  destruct (utf8_facts.DecodeRune_EncodeRune c r rn size Hc Hdec Hok)
    as (Henc & Hlen & Hsz & Hrn & Hdec').
  specialize (Hdec' X).
  destruct size as [|size]; [lia|]. simpl take in *. simpl app in *.
  cbn [string_body].
  destruct (N.eqb_spec (code c) 34); [lia|].
  destruct (N.eqb_spec (code c) 92); [lia|].
  destruct (N.ltb_spec (code c) 32); [lia|].
  destruct (N.ltb_spec (code c) 128); [lia|].
  rewrite Hdec', Henc. f_equal. f_equal.
  change (c :: take size r ++ X) with ((c :: take size r) ++ X).
  rewrite drop_app_length'; [done|]. simpl. simpl in Hlen. lia.
Qed.

(** What the encoder writes for a valid string, followed by a quote, is
    read by the decoder as that string. *)
Lemma string_body_string_loop (n : nat) :
  ∀ (s : list ascii) (fuel : nat) (X : list ascii),
    (length s ≤ n)%nat →
    utf8.valid_loop n s = true →
    (length (string_loop n s) < fuel)%nat →
    string_body fuel (string_loop n s ++ quote :: X) = Some (s, X).
Proof.
  induction n as [|n IH]; intros s fuel X Hlen Hvalid Hfuel.
  - destruct s; [|simpl in Hlen; lia]. simpl.
    destruct fuel; [simpl in Hfuel; lia|]. apply string_body_quote.
  - destruct s as [|c r].
    { simpl. destruct fuel; [simpl in Hfuel; lia|]. apply string_body_quote. }
    simpl in Hlen. cbn [string_loop] in *. cbn [utf8.valid_loop] in Hvalid.
    destruct (N.ltb_spec (code c) 0x80) as [Hc|Hc].
    + (* an ASCII byte *)
      assert (utf8.DecodeRune (c :: r) = (code c, 1%nat)) as Hdec.
      { unfold utf8.DecodeRune.
        by destruct (N.ltb_spec (code c) 0x80); [|lia]. }
      rewrite Hdec in Hvalid.
      destruct (N.eqb_spec (code c) utf8.RuneError) as [E|_];
        [unfold utf8.RuneError in E; lia|].
      simpl in Hvalid. rewrite drop_0 in Hvalid.
      rewrite length_app in Hfuel. rewrite <- app_assoc.
      destruct (htmlSafe c) eqn:Hsafe.
      * destruct fuel; [lia|]. simpl app.
        rewrite string_body_safe by done.
        rewrite IH; [done|lia|done|simpl in Hfuel; lia].
      * destruct fuel; [lia|].
        rewrite escape_unescape by done.
        rewrite IH; [done|lia|done|].
        assert (1 ≤ length (escape c))%nat by (unfold escape; simpl; lia).
        lia.
    + (* a rune of several bytes *)
      destruct (utf8.DecodeRune (c :: r)) as [rn size] eqn:Hdec.
      destruct ((rn =? utf8.RuneError) && (size =? 1)%nat) eqn:Herr;
        [done|].
      assert (¬ (rn = utf8.RuneError ∧ size = 1%nat)) as Hok.
      { intros [-> ->]. by rewrite N.eqb_refl in Herr. }
      destruct (utf8_facts.DecodeRune_EncodeRune c r rn size Hc Hdec Hok)
        as (Henc & Hlen' & Hsz & Hrn & _).
      assert (length (drop size (c :: r)) ≤ n)%nat as Hlen''.
      { rewrite length_drop. simpl. lia. }
      assert (c :: r = take size (c :: r) ++ drop size (c :: r)) as Hsplit
        by (by rewrite take_drop).
      destruct ((rn =? 0x2028) || (rn =? 0x2029)) eqn:Hsep.
      * rewrite <- !app_assoc.
        destruct fuel; [simpl in Hfuel; lia|].
        rewrite string_body_u202.
        2:{ apply orb_true_iff in Hsep as [H|H]; apply N.eqb_eq in H; auto. }
        rewrite IH; [|done|done|].
        -- simpl. rewrite Henc. by rewrite <- Hsplit.
        -- rewrite !length_app in Hfuel. simpl in Hfuel. lia.
      * rewrite <- app_assoc.
        destruct fuel; [rewrite length_app in Hfuel; lia|].
        rewrite (string_body_rune c r rn size) by done.
        rewrite IH; [|done|done|].
        -- simpl. by rewrite <- Hsplit.
        -- rewrite length_app in Hfuel. lia.
Qed.

(** The quoted form of a valid string is read back as the string. *)
Lemma string_literal_encode_string (s : list ascii) (X : list ascii) :
  utf8.valid_loop (length s) s = true →
  ∃ body,
    encode_string s ++ X = quote :: body ++ quote :: X
    ∧ string_literal (body ++ quote :: X) = Some (s, X).
Proof.
  intros Hvalid. exists (string_loop (length s) s). split.
  - unfold encode_string. simpl. by rewrite <- app_assoc.
  - unfold string_literal. apply string_body_string_loop; [done|done|].
    rewrite length_app. simpl. lia.
Qed.

End json_string_facts.

Module strconv_facts.
Import strconv.

Lemma code_digit (d : N) : d < 10 → code (digit d) = 48 + d.
Proof. intros H. unfold digit. apply code_chr. lia. Qed.

Lemma is_digit_spec (c : ascii) : is_digit c = true ↔ 48 ≤ code c ≤ 57.
Proof. apply in_range_spec. Qed.

Lemma is_digit_digit (d : N) : d < 10 → is_digit (digit d) = true.
Proof. intros H. apply is_digit_spec. rewrite code_digit by done. lia. Qed.

Lemma parse_loop_app (D1 D2 : list ascii) (a : N) :
  parse_loop (D1 ++ D2) a = parse_loop D1 a ≫= parse_loop D2.
Proof.
  revert a. induction D1 as [|c D1 IH]; intros a; simpl; [done|].
  destruct (is_digit c); [apply IH|done].
Qed.

Lemma written_digit (n : N) : n < 10 → written n [digit n].
Proof.
  intros H. split; [|split].
  - constructor; [by apply is_digit_digit|constructor].
  - intros a. simpl. rewrite is_digit_digit by done.
    rewrite code_digit by done. f_equal. lia.
  - destruct (N.eq_dec n 0) as [->|Hn]; [by left|right].
    split; [done|]. exists (digit n), []. split; [done|].
    apply in_range_spec. rewrite code_digit by done. lia.
Qed.

Lemma format_loop_S (f : nat) (n : N) (acc : list ascii) :
  format_loop (S f) n acc =
    if n <? 10 then digit (n `mod` 10) :: acc
    else format_loop f (n / 10) (digit (n `mod` 10) :: acc).
Proof. reflexivity. Qed.

Lemma format_loop_written (f : nat) :
  ∀ n acc, n < 10 ^ N.of_nat (S f) →
    ∃ D, format_loop (S f) n acc = D ++ acc ∧ written n D.
Proof.
  induction f as [|f IH]; intros n acc Hn.
  - change (10 ^ N.of_nat 1) with 10 in Hn. simpl.
    destruct (N.ltb_spec n 10); [|lia].
    exists [digit n]. rewrite N.mod_small by done.
    split; [done|by apply written_digit].
  - rewrite format_loop_S. destruct (N.ltb_spec n 10) as [Hlt|Hge].
    + exists [digit n]. rewrite N.mod_small by done.
      split; [done|by apply written_digit].
    + rewrite Nat2N.inj_succ, N.pow_succ_r' in Hn.
      destruct (IH (n / 10) (digit (n `mod` 10) :: acc)) as (D & HD & HW).
      { divlia. }
      exists (D ++ [digit (n `mod` 10)]). split.
      { rewrite HD. by rewrite <- app_assoc. }
      destruct HW as (Hdig & Hparse & Hhead).
      assert (n `mod` 10 < 10) as Hm by (apply N.mod_lt; lia).
      split; [|split].
      * apply Forall_app. split; [done|].
        constructor; [by apply is_digit_digit|constructor].
      * intros a. rewrite parse_loop_app, Hparse. simpl.
        rewrite is_digit_digit by done. rewrite code_digit by done.
        f_equal. rewrite length_app. simpl.
        rewrite Nat.add_1_r, Nat2N.inj_succ, N.pow_succ_r'.
        generalize (10 ^ N.of_nat (length D)). intros p. divlia.
      * right. split; [lia|].
        destruct Hhead as [[Hz _]|(_ & c & D' & -> & Hc)]; [divlia|].
        exists c, (D' ++ [digit (n `mod` 10)]). done.
Qed.

Lemma FormatUint_written (n : N) : n < 2 ^ 64 → written n (FormatUint n).
Proof.
  intros Hn. unfold FormatUint.
  destruct (format_loop_written 19 n []) as (D & HD & HW).
  { change (10 ^ N.of_nat 20) with 100000000000000000000.
    change (2 ^ 64) with 18446744073709551616 in Hn. lia. }
  rewrite HD. by rewrite app_nil_r.
Qed.

Lemma ParseUint_written (n : N) (D : list ascii) :
  written n D → n < 2 ^ 64 → ParseUint D 64 = Some n.
Proof.
  intros (_ & Hparse & Hhead) Hn. unfold ParseUint.
  destruct D as [|c D]; [by destruct Hhead as [[_ ?]|(_ & ? & ? & ? & _)]|].
  rewrite Hparse. rewrite N.mul_0_l, N.add_0_l.
  by destruct (N.ltb_spec n (2 ^ 64)); [|lia].
Qed.

End strconv_facts.

Module json_number_facts.
Import json strconv strconv_facts.

Lemma digits_app (D X : list ascii) (c : ascii) :
  Forall (λ c, is_digit c = true) D → is_digit c = false →
  digits (D ++ c :: X) = (D, c :: X).
Proof.
  intros HD Hc. induction HD as [|d D Hd _ IH]; simpl.
  - by rewrite Hc.
  - by rewrite Hd, IH.
Qed.

(** A number as written by the encoder, followed by a comma, is one number
    literal. *)
Lemma number_written (n : N) (D X : list ascii) :
  written n D →
  number (D ++ ","%char :: X) = Some (D, ","%char :: X).
Proof.
  intros (Hdig & _ & Hhead). unfold number.
  destruct Hhead as [[_ ->]|(_ & c & D' & -> & Hc)].
  - reflexivity.
  - apply Forall_cons in Hdig as [Hc' Hdig].
    pose proof Hc as Hr. apply in_range_spec in Hr.
    cbn [app]. destruct (N.eqb_spec (code c) 45); [lia|].
    destruct (N.eqb_spec (code c) 48); [lia|].
    rewrite Hc. rewrite (digits_app D' X ","%char) by done.
    simpl. by rewrite !app_nil_r.
Qed.

End json_number_facts.

Module base64_facts.
Import base64 json.

Lemma below_64 (P : N → Prop) :
  Forall P (N.of_nat <$> seq 0 64) → ∀ n, n < 64 → P n.
Proof.
  intros HP n Hn. rewrite Forall_forall in HP. apply HP.
  apply list_elem_of_fmap. exists (N.to_nat n). split; [lia|].
  apply elem_of_seq. lia.
Qed.

Lemma dec_enc (n : N) : n < 64 → dec (enc n) = Some n.
Proof.
  revert n. apply below_64. repeat constructor.
Qed.

Lemma plain_enc (n : N) : n < 64 → plain (enc n) = true.
Proof.
  revert n. apply below_64. repeat constructor.
Qed.

Lemma Encode_plain (src : list ascii) :
  Forall (λ c, plain c = true) (Encode src).
Proof.
  assert (∀ n src, (length src ≤ n)%nat →
                   Forall (λ c, plain c = true) (Encode src)) as H;
    [|by apply (H (length src))].
  clear src. intros n.
  induction n as [n IH] using lt_wf_ind.
  intros src Hlen.
  pose proof (code_lt) as Hb.
  destruct src as [|a [|b [|c rest]]]; cbn [Encode].
  - constructor.
  - pose proof (Hb a).
    repeat constructor; apply plain_enc; divlia.
  - pose proof (Hb a). pose proof (Hb b).
    repeat constructor; apply plain_enc; divlia.
  - pose proof (Hb a). pose proof (Hb b). pose proof (Hb c).
    repeat (constructor; [apply plain_enc; divlia|]).
    apply (IH (length rest)); simpl in Hlen; lia.
Qed.

(** Decoding undoes encoding. *)
Lemma decode_quanta_Encode (src : list ascii) :
  decode_quanta (Encode src) = Some src.
Proof.
  assert (∀ n src, (length src ≤ n)%nat →
                   decode_quanta (Encode src) = Some src) as H;
    [|by apply (H (length src))].
  clear src. intros n.
  induction n as [n IH] using lt_wf_ind.
  intros src Hlen.
  pose proof (code_lt) as Hb.
  destruct src as [|a [|b [|c rest]]].
  - reflexivity.
  - pose proof (Hb a). cbn [Encode decode_quanta].
    rewrite !dec_enc by divlia. cbn.
    f_equal. bytes_eq. divlia.
  - pose proof (Hb a). pose proof (Hb b). cbn [Encode decode_quanta].
    rewrite !dec_enc by divlia. cbn.
    f_equal. bytes_eq; divlia.
  - pose proof (Hb a). pose proof (Hb b). pose proof (Hb c).
    cbn [Encode decode_quanta].
    rewrite !dec_enc by divlia.
    rewrite (IH (length rest)) by (simpl in Hlen; lia || done).
    cbn. f_equal. bytes_eq; divlia.
Qed.

Lemma Decode_Encode (src : list ascii) : Decode (Encode src) = Some src.
Proof.
  unfold Decode. rewrite <- decode_quanta_Encode. f_equal.
  pose proof (Encode_plain src) as Hp.
  induction Hp as [|c l Hc _ IH]; [done|].
  unfold plain in Hc. apply andb_true_iff in Hc as [_ Hc].
  apply negb_true_iff in Hc.
  rewrite filter_cons_True by done. by rewrite IH.
Qed.

End base64_facts.

Module json_parse_facts.
Import json.

(** *** One step of the parser on a known first byte *)

Lemma parse_value_quote (f : nat) (d : N) (X : list ascii) :
  parse_value (S f) d (quote :: X)
  = '(str, r') ← string_literal X; Some (JStr str, r').
Proof. reflexivity. Qed.

Lemma parse_value_object (f : nat) (d : N) (X : list ascii) :
  parse_value (S f) d ("{"%char :: quote :: X)
  = if maxNestingDepth <=? d then None
    else '(ms, r'') ← parse_members f (d + 1) (quote :: X);
         Some (JObj ms, r'').
Proof. reflexivity. Qed.

Lemma parse_value_null (f : nat) (d : N) (X : list ascii) :
  parse_value (S f) d (lit "null" ++ X) = Some (JNull, X).
Proof. reflexivity. Qed.

Lemma parse_members_quote (f : nat) (d : N) (X : list ascii) :
  parse_members (S f) d (quote :: X)
  = '(key, r1) ← string_literal X;
    match skip_space r1 with
    | c1 :: r2 =>
      if code c1 =? 58 then
        '(v, r3) ← parse_value f d r2;
        match skip_space r3 with
        | c3 :: r4 =>
          if code c3 =? 44 then
            '(ms, r5) ← parse_members f d r4;
            Some ((key, v) :: ms, r5)
          else if code c3 =? 125 then Some ([(key, v)], r4)
          else None
        | [] => None
        end
      else None
    | [] => None
    end.
Proof. reflexivity. Qed.

(** *** Members and values as the encoder writes them *)

Lemma parse_members_cons (f : nat) (d : N) (body k vtext X : list ascii)
    (v : value) (ms : list (list ascii * value)) (rest : list ascii) :
  string_literal (body ++ quote :: ":"%char :: vtext ++ ","%char :: X)
    = Some (k, ":"%char :: vtext ++ ","%char :: X) →
  parse_value f d (vtext ++ ","%char :: X) = Some (v, ","%char :: X) →
  parse_members f d X = Some (ms, rest) →
  parse_members (S f) d
    (quote :: body ++ quote :: ":"%char :: vtext ++ ","%char :: X)
  = Some ((k, v) :: ms, rest).
Proof.
  intros Hk Hv Hms. rewrite parse_members_quote, Hk. simpl.
  rewrite Hv. simpl. by rewrite Hms.
Qed.

Lemma parse_members_last (f : nat) (d : N) (body k vtext X : list ascii)
    (v : value) :
  string_literal (body ++ quote :: ":"%char :: vtext ++ "}"%char :: X)
    = Some (k, ":"%char :: vtext ++ "}"%char :: X) →
  parse_value f d (vtext ++ "}"%char :: X) = Some (v, "}"%char :: X) →
  parse_members (S f) d
    (quote :: body ++ quote :: ":"%char :: vtext ++ "}"%char :: X)
  = Some ([(k, v)], X).
Proof.
  intros Hk Hv. rewrite parse_members_quote, Hk. simpl.
  by rewrite Hv.
Qed.

Lemma string_body_plain (s : list ascii) :
  ∀ (fuel : nat) (X : list ascii),
    Forall (λ c, htmlSafe c = true) s →
    (length s < fuel)%nat →
    string_body fuel (s ++ quote :: X) = Some (s, X).
Proof.
  induction s as [|c s IH]; intros fuel X Hs Hfuel.
  - destruct fuel as [|fuel]; [simpl in Hfuel; lia|].
    apply json_string_facts.string_body_quote.
  - apply Forall_cons in Hs as [Hc Hs].
    destruct fuel as [|fuel]; [simpl in Hfuel; lia|].
    cbn [app]. rewrite json_string_facts.string_body_safe by done.
    rewrite IH; [done|done|simpl in Hfuel; lia].
Qed.

Lemma string_literal_plain (s X : list ascii) :
  Forall (λ c, htmlSafe c = true) s →
  string_literal (s ++ quote :: X) = Some (s, X).
Proof.
  intros Hs. unfold string_literal. apply string_body_plain; [done|].
  rewrite length_app. simpl. lia.
Qed.

Lemma parse_value_string (f : nat) (d : N) (body s X : list ascii) :
  string_literal (body ++ quote :: X) = Some (s, X) →
  parse_value (S f) d (quote :: body ++ quote :: X) = Some (JStr s, X).
Proof. intros H. by rewrite parse_value_quote, H. Qed.

Lemma parse_value_number (f : nat) (d n : N) (D X : list ascii) :
  strconv.written n D →
  parse_value (S f) d (D ++ ","%char :: X) = Some (JNum D, ","%char :: X).
Proof.
  intros HD. pose proof (json_number_facts.number_written n D X HD) as Hnum.
  destruct HD as (Hdig & _ & Hhead).
  assert (∃ c D', D = c :: D' ∧ strconv.is_digit c = true) as (c & D' & -> & Hc).
  { destruct Hhead as [[_ ->]|(_ & c & D' & -> & _)].
    - by eexists _, _.
    - apply Forall_cons in Hdig as [Hc _]. by eexists _, _. }
  pose proof Hc as Hr. apply strconv_facts.is_digit_spec in Hr.
  cbn [app] in *. cbn [parse_value skip_space].
  assert (is_space c = false) as ->.
  { unfold is_space. cbv zeta.
    destruct (N.eqb_spec (code c) 32); [lia|].
    destruct (N.eqb_spec (code c) 9); [lia|].
    destruct (N.eqb_spec (code c) 13); [lia|].
    destruct (N.eqb_spec (code c) 10); [lia|]. done. }
  destruct (N.eqb_spec (code c) 123); [lia|].
  destruct (N.eqb_spec (code c) 91); [lia|].
  destruct (N.eqb_spec (code c) 34); [lia|].
  rewrite Hc, orb_true_r, Hnum. done.
Qed.

(** *** The text of a marshalled message *)

Lemma Marshal_text (msg : WorkerMessage) :
  Marshal msg
  = "{"%char :: quote :: lit "tag" ++ quote :: ":"%char ::
      encode_string (lit (msgTag msg)) ++ ","%char ::
      (quote :: lit "id" ++ quote :: ":"%char ::
         strconv.FormatUint (msgID msg) ++ ","%char ::
         (quote :: lit "data" ++ quote :: ":"%char ::
            encode_bytes (msgData msg) ++ "}"%char :: [])).
Proof.
  reflexivity.
Qed.

Lemma parse_value_data (f : nat) (d : N) (b : option bytes) (X : list ascii) :
  parse_value (S f) d (encode_bytes b ++ "}"%char :: X)
  = Some (data_value b, "}"%char :: X).
Proof.
  destruct b as [b|]; [|apply parse_value_null].
  unfold encode_bytes, data_value. cbn [app]. rewrite <- app_assoc.
  apply parse_value_string, string_literal_plain.
  eapply Forall_impl; [apply base64_facts.Encode_plain|].
  intros c Hc. by apply andb_true_iff in Hc as [Hc _].
Qed.

Lemma length_lit (s : string) : length (lit s) = String.length s.
Proof. induction s as [|c s IH]; [done|]. simpl. by rewrite IH. Qed.

Lemma parse_members_data (f : nat) (b : option bytes) :
  parse_members (S (S f)) 1
    (quote :: lit "data" ++ quote :: ":"%char ::
       encode_bytes b ++ "}"%char :: [])
  = Some ([(lit "data", data_value b)], []).
Proof.
  apply parse_members_last.
  - apply string_literal_plain. by repeat constructor.
  - apply parse_value_data.
Qed.

Lemma parse_members_id (f : nat) (n : N) (X : list ascii)
    (ms : list (list ascii * value)) (rest : list ascii) :
  n < uint64_modulus →
  parse_members (S f) 1 X = Some (ms, rest) →
  parse_members (S (S f)) 1
    (quote :: lit "id" ++ quote :: ":"%char ::
       strconv.FormatUint n ++ ","%char :: X)
  = Some ((lit "id", JNum (strconv.FormatUint n)) :: ms, rest).
Proof.
  intros Hn Hms. apply parse_members_cons; [| |done].
  - apply string_literal_plain. by repeat constructor.
  - apply (parse_value_number _ _ n). by apply strconv_facts.FormatUint_written.
Qed.

Lemma parse_members_tag (f : nat) (s X : list ascii)
    (ms : list (list ascii * value)) (rest : list ascii) :
  utf8.valid_loop (length s) s = true →
  parse_members (S f) 1 X = Some (ms, rest) →
  parse_members (S (S f)) 1
    (quote :: lit "tag" ++ quote :: ":"%char ::
       encode_string s ++ ","%char :: X)
  = Some ((lit "tag", JStr s) :: ms, rest).
Proof.
  intros Hs Hms. apply parse_members_cons; [| |done].
  - apply string_literal_plain. by repeat constructor.
  - destruct (json_string_facts.string_literal_encode_string
                s (","%char :: X) Hs) as (body & -> & Hbody).
    by apply parse_value_string.
Qed.

Lemma parse_Marshal (msg : WorkerMessage) :
  utf8.ValidString (msgTag msg) = true →
  msgID msg < uint64_modulus →
  parse (Marshal msg)
  = Some (JObj [(lit "tag", JStr (lit (msgTag msg)));
                (lit "id", JNum (strconv.FormatUint (msgID msg)));
                (lit "data", data_value (msgData msg))]).
Proof.
  intros Hvalid Hid. unfold parse.
  assert (∃ f, length (Marshal msg) = S (S (S (S f)))) as [f ->].
  { rewrite Marshal_text. simpl. eauto. }
  rewrite Marshal_text, parse_value_object.
  change (maxNestingDepth <=? 0) with false. change (0 + 1) with 1.
  cbv iota.
  rewrite (parse_members_tag _ _ _
             [(lit "id", JNum (strconv.FormatUint (msgID msg)));
              (lit "data", data_value (msgData msg))] []).
  - reflexivity.
  - unfold utf8.ValidString in Hvalid. by rewrite length_lit.
  - apply parse_members_id; [done|]. apply parse_members_data.
Qed.

End json_parse_facts.

Module json_decode_facts.
Import json.

Lemma find_field_tag : find_field (lit "tag") = Some FTag.
Proof. reflexivity. Qed.

Lemma find_field_id : find_field (lit "id") = Some FID.
Proof. reflexivity. Qed.

Lemma find_field_data : find_field (lit "data") = Some FData.
Proof. reflexivity. Qed.

Lemma decode_members_Marshal (msg : WorkerMessage) :
  msgID msg < uint64_modulus →
  ∃ t,
    decode_members zero_target
      [(lit "tag", JStr (lit (msgTag msg)));
       (lit "id", JNum (strconv.FormatUint (msgID msg)));
       (lit "data", data_value (msgData msg))]
    = inl t
    ∧ message_of t = msg.
Proof.
  intros Hid. cbn [decode_members decode_member].
  rewrite find_field_tag, find_field_id, find_field_data.
  rewrite (strconv_facts.ParseUint_written (msgID msg) _
             (strconv_facts.FormatUint_written _ Hid) Hid).
  destruct msg as [tag id [b|]]; cbn [data_value msgData].
  - rewrite base64_facts.Decode_Encode. eexists. split; [reflexivity|].
    unfold message_of. cbn [tTag tID tData fmap option_fmap option_map arr len].
    rewrite take_app_length. unfold lit.
    by rewrite string_of_list_ascii_of_string.
  - eexists. split; [reflexivity|].
    unfold message_of. cbn [tTag tID tData fmap option_fmap option_map].
    unfold lit. by rewrite string_of_list_ascii_of_string.
Qed.

End json_decode_facts.

(** ** The round trip of the envelope *)

(** C1.  Round trip: for every tag that is valid UTF-8, every ID in the
    range of [uint64] and every payload, nil or not, decoding with
    [json.Unmarshal], as [receiveMessage] does, the bytes that
    [json.Marshal] writes for the message, as [SendMessage] does, returns
    the same tag, ID and payload, and no error. *)
Theorem Unmarshal_Marshal (msg : WorkerMessage) :
  utf8.ValidString (msgTag msg) = true →
  msgID msg < uint64_modulus →
  json.Unmarshal (json.Marshal msg) = inl msg.
Proof.
  intros Hvalid Hid. unfold json.Unmarshal.
  rewrite json_parse_facts.parse_Marshal by done.
  destruct (json_decode_facts.decode_members_Marshal msg Hid)
    as (t & -> & ->).
  done.
Qed.

(** A run of [Unmarshal_Marshal]. *)
Lemma Unmarshal_Marshal_witness :
  json.Unmarshal (json.Marshal (mkMsg "echo" 7 (Some (lit "hi"))))
  = inl (mkMsg "echo" 7 (Some (lit "hi"))).
Proof. apply Unmarshal_Marshal; reflexivity. Defined.

(** A tag that is not valid UTF-8 does not come back: the encoder writes
    the replacement character for the byte 0xFF. *)
Remark Unmarshal_Marshal_invalid_tag :
  json.Unmarshal (json.Marshal (mkMsg (String (chr 255) EmptyString) 0 None))
  = inl (mkMsg (string_of_list_ascii (utf8.EncodeRune utf8.RuneError)) 0 None).
Proof. vm_compute. reflexivity. Qed.

Module json_absent_facts.
Import json.

Lemma decode_member_absent (f : field) (t t' : target) (m : bytes * value) :
  decode_member t m = inl t' →
  present f [m] = false →
  match f with
  | FTag => tTag t' = tTag t
  | FID => tID t' = tID t
  | FData => tData t' = tData t
  end.
Proof.
  destruct m as [k v]. unfold decode_member, present. cbn [existsb fst].
  rewrite orb_false_r.
  destruct (find_field k) as [g|]; [|by intros [= <-] _; destruct f].
  intros Hdec Hf.
  destruct g, f; try discriminate Hf; destruct v; try discriminate Hdec;
    try (by injection Hdec as <-);
    repeat (match type of Hdec with
            | context [match ?x with _ => _ end] => destruct x
            end; try discriminate Hdec);
    by injection Hdec as <-.
Qed.

Lemma decode_members_absent (f : field) (ms : list (bytes * value)) :
  ∀ t t',
    decode_members t ms = inl t' →
    present f ms = false →
    match f with
    | FTag => tTag t' = tTag t
    | FID => tID t' = tID t
    | FData => tData t' = tData t
    end.
Proof.
  induction ms as [|m ms IH]; intros t t' Hdec Hf.
  - injection Hdec as <-. by destruct f.
  - cbn [decode_members] in Hdec.
    destruct (decode_member t m) as [t1|e] eqn:Hm; [|discriminate].
    unfold present in Hf. cbn [existsb] in Hf.
    apply orb_false_iff in Hf as [Hm' Hms].
    pose proof (decode_member_absent f t t1 m Hm) as H1.
    unfold present in H1. cbn [existsb] in H1. rewrite orb_false_r in H1.
    specialize (H1 Hm'). specialize (IH t1 t' Hdec Hms).
    destruct f; congruence.
Qed.

Lemma Unmarshal_absent (frame : bytes) (ms : list (bytes * value))
    (m : WorkerMessage) :
  parse frame = Some (JObj ms) →
  Unmarshal frame = inl m →
  (present FTag ms = false → msgTag m = EmptyString)
  ∧ (present FID ms = false → msgID m = 0)
  ∧ (present FData ms = false → msgData m = None).
Proof.
  unfold Unmarshal. intros -> Hm.
  destruct (decode_members zero_target ms) as [t|e] eqn:Hdec; [|discriminate].
  injection Hm as <-. unfold message_of. cbn [msgTag msgID msgData].
  split; [|split]; intros Hf.
  - by rewrite (decode_members_absent FTag ms _ _ Hdec Hf).
  - by rewrite (decode_members_absent FID ms _ _ Hdec Hf).
  - by rewrite (decode_members_absent FData ms _ _ Hdec Hf).
Qed.

End json_absent_facts.

(** ** Frames with absent fields *)

Section Dispatch.

Context {U : Type}.
Variable deleteAfterReceiving : gset string.

Lemma receiveMessage_decode_error (frame : bytes) (e : json_error)
    (wh : @WorkerHandler U) :
  json.Unmarshal frame = inr e →
  receiveMessage deleteAfterReceiving frame wh
  = (Some (ErrUnmarshal e), wh, []).
Proof. intros H. unfold receiveMessage. by rewrite H. Qed.

(** C8 (amended).  A frame is refused as malformed when [json.Unmarshal]
    returns an error: [receiveMessage] then returns that error, leaves the
    registry as it is and starts no handler.  An absent field is no such
    error: when the frame is an object that decodes, a field that none of
    its keys selects has its zero value (the empty tag, the ID 0, the nil
    payload), and [receiveMessage] starts the handler registered under the
    decoded tag and ID on the decoded payload. *)
Theorem receiveMessage_absent_fields (frame : bytes) (wh : @WorkerHandler U) :
  (∀ e, json.Unmarshal frame = inr e →
        receiveMessage deleteAfterReceiving frame wh
        = (Some (ErrUnmarshal e), wh, []))
  ∧ (∀ ms m,
       json.parse frame = Some (json.JObj ms) →
       json.Unmarshal frame = inl m →
       (json.present json.FTag ms = false → msgTag m = EmptyString)
       ∧ (json.present json.FID ms = false → msgID m = 0)
       ∧ (json.present json.FData ms = false → msgData m = None)
       ∧ ∀ h, handlerAt wh (msgTag m) (msgID m) = Some h →
              ∃ wh', receiveMessage deleteAfterReceiving frame wh
                     = (None, wh', [(wh', RunHandler h (msgData m))])).
Proof.
  split; [intros e; apply receiveMessage_decode_error|].
  intros ms m Hparse Hm.
  destruct (json_absent_facts.Unmarshal_absent frame ms m Hparse Hm)
    as (H1 & H2 & H3).
  split; [done|split; [done|split; [done|]]].
  intros h Hh.
  destruct (receiveMessage_found deleteAfterReceiving wh frame m h Hm Hh)
    as (wh' & Hr & _).
  by exists wh'.
Qed.

End Dispatch.

(** A frame with a tag and an ID and without data. *)
Lemma frame_without_data :
  json.parse (lit "{" ++ json.key "tag" ++ json.encode_string (lit "echo")
              ++ lit "," ++ json.key "id" ++ lit "3}")
  = Some (json.JObj [(lit "tag", json.JStr (lit "echo"));
                     (lit "id", json.JNum (lit "3"))]).
Proof. vm_compute. reflexivity. Qed.

(** A run of [receiveMessage_absent_fields] on that frame: the handler
    registered under ("echo", 3) is started on the nil payload. *)
Lemma receiveMessage_absent_fields_witness :
  ∃ wh' : @WorkerHandler N,
    receiveMessage {["Ready"]}
      (lit "{" ++ json.key "tag" ++ json.encode_string (lit "echo")
       ++ lit "," ++ json.key "id" ++ lit "3}")
      (mkWH {["echo" := {[3 := Some (UserFn 7)]}]} ∅)
    = (None, wh', [(wh', RunHandler (Some (UserFn 7)) None)]).
Proof.
  destruct (proj2 (receiveMessage_absent_fields (U := N) {["Ready"]}
                     (lit "{" ++ json.key "tag"
                      ++ json.encode_string (lit "echo")
                      ++ lit "," ++ json.key "id" ++ lit "3}")
                     (mkWH {["echo" := {[3 := Some (UserFn 7)]}]} ∅))
              [(lit "tag", json.JStr (lit "echo"));
               (lit "id", json.JNum (lit "3"))]
              (mkMsg "echo" 3 None))
    as (_ & _ & _ & Hrun); [vm_compute; reflexivity..|].
  apply (Hrun (Some (UserFn 7))). vm_compute. reflexivity.
Defined.

(** The sentence on absent fields fails: the frame above has no data
    member, and [receiveMessage] returns no error on it. *)
Lemma absent_field_is_not_refused :
  ¬ ∀ (frame : bytes) (ms : list (bytes * json.value))
      (wh : @WorkerHandler N),
      json.parse frame = Some (json.JObj ms) →
      json.present json.FData ms = false →
      ∃ e wh', receiveMessage {["Ready"]} frame wh = (Some e, wh', []).
Proof.
  intros Hall.
  destruct (Hall _ _ (mkWH {["echo" := {[3 := Some (UserFn 7)]}]} ∅)
              frame_without_data eq_refl) as (e & wh' & He).
  destruct (receiveMessage_found (U := N) {["Ready"]}
              (mkWH {["echo" := {[3 := Some (UserFn 7)]}]} ∅)
              (lit "{" ++ json.key "tag" ++ json.encode_string (lit "echo")
               ++ lit "," ++ json.key "id" ++ lit "3}")
              (mkMsg "echo" 3 None) (Some (UserFn 7)))
    as (wh1 & Hr & _); [vm_compute; reflexivity..|].
  rewrite Hr in He. discriminate He.
Qed.

(** * More on the registry *)

Section RegistryCalls.

Context {U : Type}.
Variable deleteAfterReceiving : gset string.

(** A lookup succeeds with what the slot holds. *)
Lemma getHandler_found (wh : @WorkerHandler U) (tag : string) (id : N)
    (h : HandlerFn) :
  (getHandler deleteAfterReceiving tag id wh).1.1 = inl h
  ↔ handlerAt wh tag id = Some h.
Proof.
  rewrite getHandler_spec. unfold handlerAt.
  destruct (handlers wh !! tag) as [hs|]; simpl; [|split; discriminate].
  destruct (hs !! id) as [h'|]; simpl; [|split; discriminate].
  split; congruence.
Qed.

Lemma RegisterHandler_registered (tag : string) (id : N) (autoID : bool)
    (h : HandlerFn) (wh : @WorkerHandler U) :
  ∃ r ids,
    RegisterHandler tag id autoID h wh
    = (r, registered tag r h (set_handlerIDs ids wh), [])
    ∧ r = (if autoID then nextID wh tag else id).
Proof.
  destruct autoID.
  - rewrite RegisterHandler_auto. by eexists _, _.
  - rewrite RegisterHandler_explicit. exists id, (handlerIDs wh).
    by destruct wh.
Qed.

(** X1.  A handler is found where it was registered: after
    [RegisterHandler], with an ID of the caller or an allocated one,
    [getHandler] on the tag and the returned ID returns that handler,
    whatever the slot held before; the lookups that succeed on any other
    slot are those that succeeded before, with the same handler. *)
Theorem register_then_lookup (wh : @WorkerHandler U) (tag : string) (id : N)
    (autoID : bool) (h : HandlerFn) :
  let '(r, wh1, _) := RegisterHandler tag id autoID h wh in
  (getHandler deleteAfterReceiving tag r wh1).1.1 = inl h
  ∧ ∀ tag' id' h',
      ¬ (tag = tag' ∧ r = id') →
      ((getHandler deleteAfterReceiving tag' id' wh1).1.1 = inl h'
       ↔ (getHandler deleteAfterReceiving tag' id' wh).1.1 = inl h').
Proof.
  destruct (RegisterHandler_registered tag id autoID h wh)
    as (r & ids & -> & _).
  split.
  - apply getHandler_found. rewrite handlerAt_registered.
    by rewrite decide_True.
  - intros tag' id' h' Hne. rewrite !getHandler_found.
    rewrite handlerAt_registered, decide_False by done.
    by rewrite handlerAt_set_handlerIDs.
Qed.

(** *** One call of a sequence *)

Lemma run_calls_cons (c : call) (cs : list call) (wh : @WorkerHandler U) :
  (run_calls deleteAfterReceiving (c :: cs) wh).1.2
  = (run_calls deleteAfterReceiving cs
       (run_call deleteAfterReceiving c wh).1.2).1.2.
Proof.
  simpl. unfold bind, ret.
  destruct (run_call deleteAfterReceiving c wh) as [[a wh1] l1]. simpl.
  by destruct (run_calls deleteAfterReceiving cs wh1) as [[b wh2] l2].
Qed.

(** A property of the registry that every call of the sequence keeps holds
    at its end. *)
Lemma run_calls_invariant (P : @WorkerHandler U → Prop) (cs : list call) :
  (∀ c wh, c ∈ cs → P wh → P (run_call deleteAfterReceiving c wh).1.2) →
  ∀ wh, P wh → P (run_calls deleteAfterReceiving cs wh).1.2.
Proof.
  induction cs as [|c cs IH]; intros Hstep wh HP; [done|].
  rewrite run_calls_cons. apply IH.
  - intros c' wh' Hin. apply Hstep. by right.
  - apply Hstep; [by left|done].
Qed.

Lemma run_call_Register (tag : string) (id : N) (autoID : bool)
    (h : HandlerFn) (wh : @WorkerHandler U) :
  ∃ ids,
    (run_call deleteAfterReceiving (Register tag id autoID h) wh).1.2
    = registered tag (if autoID then nextID wh tag else id) h
        (set_handlerIDs ids wh)
    ∧ ids = (if autoID
             then <[tag := uint64_incr (nextID wh tag)]> (handlerIDs wh)
             else handlerIDs wh).
Proof.
  unfold run_call, bind, ret. destruct autoID.
  - rewrite RegisterHandler_auto. by eexists.
  - rewrite RegisterHandler_explicit. exists (handlerIDs wh).
    by destruct wh.
Qed.

Lemma run_call_GetHandler (tag : string) (id : N) (wh : @WorkerHandler U) :
  (run_call deleteAfterReceiving (GetHandler tag id) wh).1.2
  = match handlers wh !! tag with
    | Some hs =>
      if bool_decide (tag ∈ deleteAfterReceiving ∧ is_Some (hs !! id))
      then removed tag id hs wh else wh
    | None => wh
    end.
Proof.
  unfold run_call, bind, ret. rewrite getHandler_spec.
  destruct (handlers wh !! tag) as [hs|]; [|done].
  destruct (hs !! id) as [h|]; simpl.
  - destruct (bool_decide_reflect (tag ∈ deleteAfterReceiving)) as [Hin|Hin].
    + by rewrite bool_decide_eq_true_2 by (split; [done|by eexists]).
    + by rewrite bool_decide_eq_false_2 by (by intros []).
  - rewrite bool_decide_eq_false_2; [done|].
    intros [_ [? ?]]. discriminate.
Qed.

(** The slots after one call. *)
Lemma handlerAt_run_call (c : call) (wh : @WorkerHandler U) (tag : string)
    (id : N) :
  handlerAt (run_call deleteAfterReceiving c wh).1.2 tag id
  = match c with
    | Register t i a h =>
      if decide (t = tag ∧ (if a then nextID wh t else i) = id)
      then Some h else handlerAt wh tag id
    | GetHandler t i =>
      if decide (t = tag ∧ i = id)
      then (if bool_decide (t ∈ deleteAfterReceiving)
            then None else handlerAt wh tag id)
      else handlerAt wh tag id
    end.
Proof.
  destruct c as [t i a h|t i].
  - destruct (run_call_Register t i a h wh) as (ids & -> & _).
    rewrite handlerAt_registered. by rewrite handlerAt_set_handlerIDs.
  - rewrite run_call_GetHandler.
    destruct (handlers wh !! t) as [hs|] eqn:Hhs.
    + destruct (bool_decide_reflect
                  (t ∈ deleteAfterReceiving ∧ is_Some (hs !! i)))
        as [[Hin Hsome]|Hno].
      * rewrite (handlerAt_removed _ _ _ _ _ _ Hhs).
        by rewrite (bool_decide_eq_true_2 _ Hin).
      * destruct (decide (t = tag ∧ i = id)) as [[<- <-]|]; [|done].
        destruct (bool_decide_reflect (t ∈ deleteAfterReceiving)) as [Hin|];
          [|done].
        unfold handlerAt. rewrite Hhs. simpl.
        destruct (hs !! i) eqn:Hi; [|done].
        exfalso. apply Hno. split; [done|by eexists].
    + destruct (decide (t = tag ∧ i = id)) as [[<- <-]|]; [|done].
      unfold handlerAt. rewrite Hhs. simpl.
      by destruct (bool_decide (t ∈ deleteAfterReceiving)).
Qed.

(** The counters after one call. *)
Lemma handlerIDs_run_call (c : call) (wh : @WorkerHandler U) (tag : string) :
  handlerIDs (run_call deleteAfterReceiving c wh).1.2 !! tag
  = if is_auto tag c then Some (uint64_incr (nextID wh tag))
    else handlerIDs wh !! tag.
Proof.
  destruct c as [t i a h|t i].
  - destruct (run_call_Register t i a h wh) as (ids & -> & ->).
    unfold registered, set_handlers, set_handlerIDs. simpl.
    destruct a; [|done].
    destruct (bool_decide_reflect (t = tag)) as [->|Hne].
    + by rewrite lookup_insert_eq.
    + by rewrite lookup_insert_ne.
  - rewrite run_call_GetHandler. simpl.
    destruct (handlers wh !! t) as [hs|]; [|done].
    destruct (bool_decide _); [|done].
    unfold removed. by destruct (bool_decide _).
Qed.

(** The map of a tag that the call is not made for. *)
Lemma handlers_run_call_other (c : call) (wh : @WorkerHandler U)
    (tag : string) :
  call_tag c ≠ tag →
  handlers (run_call deleteAfterReceiving c wh).1.2 !! tag
  = handlers wh !! tag.
Proof.
  intros Hne. destruct c as [t i a h|t i]; simpl in Hne.
  - destruct (run_call_Register t i a h wh) as (ids & -> & _).
    unfold registered, set_handlers, set_handlerIDs. simpl.
    by rewrite lookup_insert_ne.
  - rewrite run_call_GetHandler.
    destruct (handlers wh !! t) as [hs|]; [|done].
    destruct (bool_decide _); [|done].
    unfold removed. destruct (bool_decide _); simpl.
    + by rewrite lookup_delete_ne.
    + by rewrite lookup_insert_ne.
Qed.

Lemma is_auto_call_tag (tag : string) (c : call) :
  call_tag c ≠ tag → is_auto (U := U) tag c = false.
Proof.
  destruct c as [t i [] h|t i]; simpl; [|done..].
  intros Hne. by apply bool_decide_eq_false_2.
Qed.

(** X2.  Tags are kept apart: a sequence of registrations and lookups
    none of which is made for [tag] leaves the tag's map of handlers and
    its counter as they were, so lookups for the tag return what they
    returned before and the next ID allocated for it is the same. *)
Theorem calls_for_other_tags (cs : list call) (wh : @WorkerHandler U)
    (tag : string) :
  Forall (λ c, call_tag c ≠ tag) cs →
  let wh' := (run_calls deleteAfterReceiving cs wh).1.2 in
  handlers wh' !! tag = handlers wh !! tag
  ∧ handlerIDs wh' !! tag = handlerIDs wh !! tag
  ∧ (∀ id, (getHandler deleteAfterReceiving tag id wh').1.1
           = (getHandler deleteAfterReceiving tag id wh).1.1)
  ∧ (∀ id autoID h, (RegisterHandler tag id autoID h wh').1.1
                    = (RegisterHandler tag id autoID h wh).1.1).
Proof.
  intros Hcs wh'.
  assert (handlers wh' !! tag = handlers wh !! tag
          ∧ handlerIDs wh' !! tag = handlerIDs wh !! tag) as [Hh Hi].
  { subst wh'.
    apply (run_calls_invariant
             (λ w, handlers w !! tag = handlers wh !! tag
                   ∧ handlerIDs w !! tag = handlerIDs wh !! tag));
      [|done].
    intros c w Hin [H1 H2].
    rewrite Forall_forall in Hcs. specialize (Hcs c Hin).
    rewrite handlers_run_call_other, handlerIDs_run_call by done.
    by rewrite is_auto_call_tag. }
  split; [done|split; [done|split]].
  - intros id. rewrite !getHandler_spec, Hh.
    destruct (handlers wh !! tag) as [hs|]; [|done].
    by destruct (hs !! id).
  - intros id [] h.
    + rewrite !RegisterHandler_auto. simpl. unfold nextID. by rewrite Hi.
    + by rewrite !RegisterHandler_explicit.
Qed.

Lemma nextID_run_call (c : call) (wh : @WorkerHandler U) (tag : string) :
  nextID (run_call deleteAfterReceiving c wh).1.2 tag
  = if is_auto tag c then uint64_incr (nextID wh tag) else nextID wh tag.
Proof.
  unfold nextID at 1. rewrite handlerIDs_run_call.
  by destruct (is_auto tag c).
Qed.

(** X3.  No call unregisters a handler of a tag that is not in
    [deleteAfterReceiving]: whatever calls follow, lookups included, the
    slot still holds a handler, and it holds the same handler when none of
    the calls is a registration for the tag. *)
Theorem persistent_handler_stays (cs : list call) (wh : @WorkerHandler U)
    (tag : string) (id : N) (h : HandlerFn) :
  tag ∉ deleteAfterReceiving →
  handlerAt wh tag id = Some h →
  let wh' := (run_calls deleteAfterReceiving cs wh).1.2 in
  is_Some (handlerAt wh' tag id)
  ∧ (Forall (λ c, is_auto tag c = false ∧ is_explicit tag c = false) cs →
     handlerAt wh' tag id = Some h).
Proof.
  intros Hnot Hh wh'. split.
  - subst wh'.
    apply (run_calls_invariant (λ w, is_Some (handlerAt w tag id)));
      [|by eexists].
    intros c w _ Hw. rewrite handlerAt_run_call.
    destruct c as [t i a h'|t i].
    + destruct (decide _); [by eexists|done].
    + destruct (decide _) as [[-> _]|]; [|done].
      by rewrite bool_decide_eq_false_2.
  - intros Hcs. subst wh'. revert wh Hh.
    induction Hcs as [|c cs [Ha He] _ IH]; intros wh Hh; [done|].
    rewrite run_calls_cons. apply IH.
    rewrite handlerAt_run_call.
    destruct c as [t i a h'|t i].
    + destruct (decide _) as [[-> _]|]; [|done].
      simpl in Ha, He. destruct a.
      * by apply bool_decide_eq_false_1 in Ha.
      * by apply bool_decide_eq_false_1 in He.
    + destruct (decide _) as [[-> _]|]; [|done].
      by rewrite bool_decide_eq_false_2.
Qed.

(** X4.  The registry never keeps a tag with an empty map of handlers:
    if no tag has one at the start, none has one after any sequence of
    calls.  Hence [getHandler] returns the tag-level error exactly when the
    tag has no handler at all, and the ID-level error exactly when the slot
    is empty while the tag has a handler under another ID. *)
Theorem no_tag_without_handler (cs : list call) (wh : @WorkerHandler U) :
  (∀ tag, handlers wh !! tag ≠ Some ∅) →
  let wh' := (run_calls deleteAfterReceiving cs wh).1.2 in
  ∀ tag,
    handlers wh' !! tag ≠ Some ∅
    ∧ ∀ id,
        ((getHandler deleteAfterReceiving tag id wh').1.1
           = inr (ErrNoHandlersForTag tag)
         ↔ ∀ id', handlerAt wh' tag id' = None)
        ∧ ((getHandler deleteAfterReceiving tag id wh').1.1
             = inr (ErrNoHandlerForID tag id)
           ↔ handlerAt wh' tag id = None
             ∧ ∃ id', is_Some (handlerAt wh' tag id')).
Proof.
  intros Hwf wh'.
  assert (∀ tag, handlers wh' !! tag ≠ Some ∅) as Hwf'.
  { subst wh'.
    apply (run_calls_invariant (λ w, ∀ tag, handlers w !! tag ≠ Some ∅));
      [|done].
    intros c w _ Hw tag. destruct c as [t i a h|t i].
    - destruct (run_call_Register t i a h w) as (ids & -> & _).
      unfold registered, set_handlers, set_handlerIDs. simpl.
      destruct (decide (t = tag)) as [->|Hne].
      + rewrite lookup_insert_eq. intros [= Hempty].
        by apply insert_non_empty in Hempty.
      + rewrite lookup_insert_ne by done. apply Hw.
    - rewrite run_call_GetHandler.
      destruct (handlers w !! t) as [hs|] eqn:Hhs; [|apply Hw].
      destruct (bool_decide _); [|apply Hw].
      unfold removed.
      destruct (bool_decide_reflect (size (delete i hs) = 0%nat))
        as [Hsz|Hsz]; simpl.
      + destruct (decide (t = tag)) as [->|Hne].
        * by rewrite lookup_delete_eq.
        * rewrite lookup_delete_ne by done. apply Hw.
      + destruct (decide (t = tag)) as [->|Hne].
        * rewrite lookup_insert_eq. intros [= Hempty].
          apply Hsz. rewrite Hempty. apply map_size_empty.
        * rewrite lookup_insert_ne by done. apply Hw. }
  intros tag. split; [apply Hwf'|]. intros id.
  rewrite getHandler_spec. unfold handlerAt.
  specialize (Hwf' tag).
  destruct (handlers wh' !! tag) as [hs|] eqn:Hhs; simpl.
  - assert (∃ id', is_Some (hs !! id')) as Hex.
    { destruct (map_choose hs) as (i & x & Hix); [congruence|].
      exists i. by eexists. }
    destruct (hs !! id) as [h|] eqn:Hid; simpl.
    + split; split; try discriminate.
      * intros Hall. specialize (Hall id). congruence.
      * by intros [? _].
    + split; split; try discriminate; try done.
      intros Hall. destruct Hex as [id' [x Hx]].
      specialize (Hall id'). congruence.
  - split; split; try done; try discriminate.
    intros [_ [id' [x Hx]]]. discriminate.
Qed.

(** X5.  On a registry that starts empty, the k-th auto-allocation for a
    tag returns k - 1 modulo 2^64, whatever calls come in between (lookups,
    registrations under chosen IDs, calls for other tags), and the tag's
    counter is the number of its auto-allocations modulo 2^64. *)
Theorem auto_IDs_count (cs : list call) (tag : string) :
  let '(l, wh', _) := run_calls (U := U) deleteAfterReceiving cs emptyWH in
  ids_of tag l
  = (λ k, N.of_nat k mod uint64_modulus) <$> seq 0 (autos tag cs)
  ∧ nextID wh' tag = N.of_nat (autos tag cs) mod uint64_modulus.
Proof.
  pose proof (run_calls_ids deleteAfterReceiving tag cs (emptyWH (U := U)))
    as H.
  destruct (run_calls deleteAfterReceiving cs emptyWH) as [[l wh'] t].
  apply H. done.
Qed.

Lemma next_slot_free_from (tag : string) (cs : list call) :
  ∀ wh : @WorkerHandler U,
    Forall (λ c, is_explicit tag c = false) cs →
    nextID wh tag + N.of_nat (autos tag cs) < uint64_modulus →
    (∀ id, is_Some (handlerAt wh tag id) → id < nextID wh tag) →
    let wh' := (run_calls deleteAfterReceiving cs wh).1.2 in
    ∀ id, is_Some (handlerAt wh' tag id) → id < nextID wh' tag.
Proof.
  induction cs as [|c cs IH]; intros wh Hcs Hlt Hinv; [done|].
  apply Forall_cons in Hcs as [Hc Hcs].
  rewrite autos_cons in Hlt.
  cbv zeta. rewrite run_calls_cons. apply IH; [done|..].
  - rewrite nextID_run_call. destruct (is_auto tag c); [|done].
    unfold uint64_incr. rewrite N.mod_small by lia. lia.
  - intros id. rewrite handlerAt_run_call, nextID_run_call.
    destruct c as [t i a h|t i].
    + destruct (decide _) as [[-> <-]|Hne].
      * intros _. destruct a.
        -- simpl in Hlt |- *. rewrite bool_decide_eq_true_2 by done.
           rewrite bool_decide_eq_true_2 in Hlt by done.
           unfold uint64_incr. rewrite N.mod_small by lia. lia.
        -- simpl in Hc. by apply bool_decide_eq_false_1 in Hc.
      * intros Hid. specialize (Hinv id Hid).
        destruct (is_auto tag _); [|done].
        unfold uint64_incr. rewrite N.mod_small by lia. lia.
    + simpl. destruct (decide _); [|apply Hinv].
      destruct (bool_decide _); [by intros [? ?]|apply Hinv].
Qed.

(** X6.  An allocated ID never takes the slot of a handler that is still
    registered, as long as IDs for the tag are only allocated: on a
    registry that starts empty, after calls without a registration for the
    tag under a chosen ID and with fewer than 2^64 allocations for it,
    every handler of the tag sits below the tag's counter, and the slot at
    the counter is free. *)
Theorem next_auto_slot_is_free (cs : list call) (tag : string) :
  Forall (λ c, is_explicit (U := U) tag c = false) cs →
  N.of_nat (autos tag cs) < uint64_modulus →
  let wh' := (run_calls deleteAfterReceiving cs emptyWH).1.2 in
  handlerAt wh' tag (nextID wh' tag) = None
  ∧ ∀ id h, handlerAt wh' tag id = Some h → id < nextID wh' tag.
Proof.
  intros Hcs Hlt wh'.
  assert (∀ id, is_Some (handlerAt wh' tag id) → id < nextID wh' tag) as H.
  { apply next_slot_free_from; [done|done|]. by intros id [x Hx]. }
  split.
  - destruct (handlerAt wh' tag (nextID wh' tag)) as [h|] eqn:Hh; [|done].
    assert (nextID wh' tag < nextID wh' tag); [|lia].
    apply H. by eexists.
  - intros id h Hh. apply H. by eexists.
Qed.

End RegistryCalls.

Module json_loop_facts.

(** What [json.Marshal] writes, [json.Unmarshal] reads back. *)
Lemma Unmarshal_of_Marshal (msg : WorkerMessage) :
  utf8.ValidString (msgTag msg) = true →
  msgID msg < uint64_modulus →
  json.Unmarshal (json.Marshal msg) = inl msg.
Proof.
  intros Hvalid Hid. unfold json.Unmarshal.
  rewrite json_parse_facts.parse_Marshal by done.
  destruct (json_decode_facts.decode_members_Marshal msg Hid)
    as (t & -> & ->).
  done.
Qed.

End json_loop_facts.

(** * Requests and replies *)

Section Exchange.

Context {U : Type}.
Variable deleteAfterReceiving : gset string.

Lemma uint64_incr_ne (n : N) : uint64_incr n ≠ n.
Proof.
  unfold uint64_incr, uint64_modulus.
  destruct (N.lt_ge_cases n (2 ^ 64)) as [Hlt|Hge].
  - destruct (N.eq_dec (n + 1) (2 ^ 64)) as [Heq|Hne].
    + rewrite Heq, N.Div0.mod_same. lia.
    + rewrite N.mod_small by lia. lia.
  - pose proof (N.mod_upper_bound (n + 1) (2 ^ 64)). lia.
Qed.

(** X7.  Two requests for one tag that are both waiting for a reply get
    different IDs, written in the frames posted, and each reply starts the
    handler of its own request, whichever reply comes first. *)
Theorem two_requests_two_replies (wh : @WorkerHandler U) (tag : string)
    (d1 d2 : option bytes) (c1 c2 : Callback)
    (r1 r2 : bytes) (m1 m2 : WorkerMessage) :
  json.Unmarshal r1 = inl m1 → msgTag m1 = tag → msgID m1 = nextID wh tag →
  json.Unmarshal r2 = inl m2 → msgTag m2 = tag →
  msgID m2 = uint64_incr (nextID wh tag) →
  ∃ wh1 wh2,
    SendMessage tag d1 (Some c1) wh
    = (tt, wh1,
       [(wh1, PostMessage (json.Marshal (mkMsg tag (msgID m1) d1)))])
    ∧ SendMessage tag d2 (Some c2) wh1
      = (tt, wh2,
         [(wh2, PostMessage (json.Marshal (mkMsg tag (msgID m2) d2)))])
    ∧ msgID m1 ≠ msgID m2
    ∧ (∃ wh3 wh4,
         receiveMessage deleteAfterReceiving r1 wh2
         = (None, wh3, [(wh3, RunHandler (Some c1) (msgData m1))])
         ∧ receiveMessage deleteAfterReceiving r2 wh3
           = (None, wh4, [(wh4, RunHandler (Some c2) (msgData m2))]))
    ∧ (∃ wh3 wh4,
         receiveMessage deleteAfterReceiving r2 wh2
         = (None, wh3, [(wh3, RunHandler (Some c2) (msgData m2))])
         ∧ receiveMessage deleteAfterReceiving r1 wh3
           = (None, wh4, [(wh4, RunHandler (Some c1) (msgData m1))])).
Proof.
  intros Hr1 Ht1 Hi1 Hr2 Ht2 Hi2.
  pose proof (uint64_incr_ne (nextID wh tag)) as Hne.
  set (wh1 := registered tag (nextID wh tag) (Some c1)
                (set_handlerIDs
                   (<[tag := uint64_incr (nextID wh tag)]> (handlerIDs wh))
                   wh)).
  assert (nextID wh1 tag = uint64_incr (nextID wh tag)) as Hn1.
  { subst wh1. rewrite nextID_registered. unfold nextID at 1. simpl.
    by rewrite lookup_insert_eq. }
  set (wh2 := registered tag (uint64_incr (nextID wh tag)) (Some c2)
                (set_handlerIDs
                   (<[tag := uint64_incr (uint64_incr (nextID wh tag))]>
                      (handlerIDs wh1))
                   wh1)).
  assert (handlerAt wh2 tag (nextID wh tag) = Some (Some c1)) as H1.
  { subst wh2. rewrite handlerAt_registered, decide_False by (by intros []).
    rewrite handlerAt_set_handlerIDs. subst wh1.
    by rewrite handlerAt_registered, decide_True. }
  assert (handlerAt wh2 tag (uint64_incr (nextID wh tag)) = Some (Some c2))
    as H2.
  { subst wh2. by rewrite handlerAt_registered, decide_True. }
  exists wh1, wh2. rewrite Hi1, Hi2.
  rewrite !SendMessage_handler, !RegisterHandler_auto. cbn [fst snd].
  rewrite Hn1. fold wh1. fold wh2.
  split; [done|split; [done|split; [congruence|split]]].
  - destruct (receiveMessage_found deleteAfterReceiving wh2 r1 m1 (Some c1))
      as (wh3 & Hrec1 & Hat); [done|by rewrite Ht1, Hi1|].
    destruct (receiveMessage_found deleteAfterReceiving wh3 r2 m2 (Some c2))
      as (wh4 & Hrec2 & _); [done| |by exists wh3, wh4].
    rewrite Hat, Ht1, Hi1, Ht2, Hi2.
    by rewrite decide_False by (intros []; congruence).
  - destruct (receiveMessage_found deleteAfterReceiving wh2 r2 m2 (Some c2))
      as (wh3 & Hrec2 & Hat); [done|by rewrite Ht2, Hi2|].
    destruct (receiveMessage_found deleteAfterReceiving wh3 r1 m1 (Some c1))
      as (wh4 & Hrec1 & _); [done| |by exists wh3, wh4].
    rewrite Hat, Ht1, Hi1, Ht2, Hi2.
    by rewrite decide_False by (intros []; congruence).
Qed.

(** X8.  The frame that [SendMessage] posts for a request with a handler,
    when it comes back as it is, is decoded by [receiveMessage] and starts
    that handler on the payload that was sent (for a tag that is valid
    UTF-8). *)
Theorem posted_frame_comes_back (wh : @WorkerHandler U) (tag : string)
    (data : option bytes) (cb : Callback) :
  utf8.ValidString tag = true →
  nextID wh tag < uint64_modulus →
  ∃ wh' wh'' payload,
    SendMessage tag data (Some cb) wh = (tt, wh', [(wh', PostMessage payload)])
    ∧ receiveMessage deleteAfterReceiving payload wh'
      = (None, wh'', [(wh'', RunHandler (Some cb) data)]).
Proof.
  intros Hvalid Hlt.
  set (wh' := registered tag (nextID wh tag) (Some cb)
                (set_handlerIDs
                   (<[tag := uint64_incr (nextID wh tag)]> (handlerIDs wh))
                   wh)).
  set (msg := mkMsg tag (nextID wh tag) data).
  destruct (receiveMessage_found deleteAfterReceiving wh' (json.Marshal msg)
              msg (Some cb)) as (wh'' & Hrec & _).
  - by apply json_loop_facts.Unmarshal_of_Marshal.
  - subst wh' msg. simpl. by rewrite handlerAt_registered, decide_True.
  - exists wh', wh'', (json.Marshal msg).
    by rewrite SendMessage_handler, RegisterHandler_auto.
Qed.

(** *** Inbound frames *)

Lemma handlerIDs_removed (tag : string) (id : N) (hs : gmap N HandlerFn)
    (wh : @WorkerHandler U) :
  handlerIDs (removed tag id hs wh) = handlerIDs wh.
Proof. unfold removed. by destruct (bool_decide _). Qed.

(** The two ways [receiveMessage] ends, and what it leaves. *)
Lemma receiveMessage_cases (frame : bytes) (wh : @WorkerHandler U) :
  let '(r, wh', l) := receiveMessage deleteAfterReceiving frame wh in
  handlerIDs wh' = handlerIDs wh
  ∧ (∀ tag id h, handlerAt wh' tag id = Some h → handlerAt wh tag id = Some h)
  ∧ match r with
    | Some e =>
      wh' = wh ∧ l = []
      ∧ ((∃ je, json.Unmarshal frame = inr je ∧ e = ErrUnmarshal je)
         ∨ (∃ m, json.Unmarshal frame = inl m
                 ∧ handlerAt wh (msgTag m) (msgID m) = None
                 ∧ (e = ErrNoHandlersForTag (msgTag m)
                    ∨ e = ErrNoHandlerForID (msgTag m) (msgID m))))
    | None =>
      ∃ m h, json.Unmarshal frame = inl m
             ∧ handlerAt wh (msgTag m) (msgID m) = Some h
             ∧ l = [(wh', RunHandler h (msgData m))]
    end.
Proof.
  unfold receiveMessage.
  destruct (json.Unmarshal frame) as [m|je] eqn:Hm.
  - unfold bind, go, ret. rewrite getHandler_spec.
    destruct (handlers wh !! msgTag m) as [hs|] eqn:Hhs.
    + destruct (hs !! msgID m) as [h|] eqn:Hid.
      * simpl. split; [|split].
        -- destruct (bool_decide _); [apply handlerIDs_removed|done].
        -- intros tag id h'. destruct (bool_decide _); [|done].
           rewrite (handlerAt_removed _ _ _ _ _ _ Hhs).
           by destruct (decide _).
        -- exists m, h. split; [done|]. split; [|done].
           unfold handlerAt. by rewrite Hhs.
      * simpl. split; [done|split; [done|]].
        split; [done|split; [done|]]. right. exists m.
        split; [done|split; [|by right]].
        unfold handlerAt. by rewrite Hhs.
    + simpl. split; [done|split; [done|]].
      split; [done|split; [done|]]. right. exists m.
      split; [done|split; [|by left]].
      unfold handlerAt. by rewrite Hhs.
  - simpl. split; [done|split; [done|]].
    split; [done|split; [done|]]. left. by exists je.
Qed.

(** X9.  What [receiveMessage] can do with a frame.  It never touches the
    ID counters and never adds a handler.  When it returns an error it has
    changed nothing and started nothing, and the error is either the one of
    [json.Unmarshal] or one of the two lookup errors for a slot that is
    empty.  When it returns nil it has started exactly one goroutine: the
    handler stored under the decoded tag and ID, on the decoded payload. *)
Theorem receiveMessage_outcome (frame : bytes) (wh : @WorkerHandler U) :
  let '(r, wh', l) := receiveMessage deleteAfterReceiving frame wh in
  handlerIDs wh' = handlerIDs wh
  ∧ (∀ tag id h, handlerAt wh' tag id = Some h → handlerAt wh tag id = Some h)
  ∧ match r with
    | Some e =>
      wh' = wh ∧ l = []
      ∧ ((∃ je, json.Unmarshal frame = inr je ∧ e = ErrUnmarshal je)
         ∨ (∃ m, json.Unmarshal frame = inl m
                 ∧ handlerAt wh (msgTag m) (msgID m) = None
                 ∧ (e = ErrNoHandlersForTag (msgTag m)
                    ∨ e = ErrNoHandlerForID (msgTag m) (msgID m))))
    | None =>
      ∃ m h, json.Unmarshal frame = inl m
             ∧ handlerAt wh (msgTag m) (msgID m) = Some h
             ∧ l = [(wh', RunHandler h (msgData m))]
    end.
Proof. apply receiveMessage_cases. Qed.

Lemma messageEvents_cons (frame : bytes) (frames : list bytes)
    (wh : @WorkerHandler U) :
  messageEvents deleteAfterReceiving (frame :: frames) wh
  = (let '(r, wh1, l1) := receiveMessage deleteAfterReceiving frame wh in
     let '(errs, wh2, l2) := messageEvents deleteAfterReceiving frames wh1 in
     (match r with Some e => [e] | None => [] end ++ errs, wh2, l1 ++ l2)).
Proof.
  cbn [messageEvents]. unfold messageEvent, bind, ret.
  destruct (receiveMessage deleteAfterReceiving frame wh) as [[r wh1] l1].
  destruct r as [e|];
    destruct (messageEvents deleteAfterReceiving frames wh1)
      as [[errs wh2] l2]; by rewrite !app_nil_r.
Qed.

(** X10.  The message listener accounts for every frame: each one either
    adds one line to the error log or starts one handler.  It starts
    nothing but handlers, never touches the ID counters and never adds a
    handler; and a frame that is refused leaves no trace but its log line:
    the frames after it are handled as if it had not come. *)
Theorem messageEvents_account (frames : list bytes) :
  ∀ wh : @WorkerHandler U,
    let '(errs, wh', l) := messageEvents deleteAfterReceiving frames wh in
    (length errs + length l = length frames)%nat
    ∧ handlerIDs wh' = handlerIDs wh
    ∧ (∀ tag id h,
         handlerAt wh' tag id = Some h → handlerAt wh tag id = Some h)
    ∧ Forall (λ p, ∃ h d, p.2 = RunHandler h d) l
    ∧ ∀ frame e,
        (receiveMessage deleteAfterReceiving frame wh).1.1 = Some e →
        messageEvents deleteAfterReceiving (frame :: frames) wh
        = (e :: errs, wh', l).
Proof.
  induction frames as [|f frames IH]; intros wh.
  - assert (messageEvents deleteAfterReceiving [] wh = ([], wh, [])) as E
      by reflexivity.
    rewrite E. split; [done|split; [done|split; [done|]]].
    split; [done|]. intros frame e He. rewrite messageEvents_cons.
    pose proof (receiveMessage_cases frame wh) as Hout.
    destruct (receiveMessage deleteAfterReceiving frame wh) as [[r wh1] l1].
    simpl in He. subst r. destruct Hout as (_ & _ & -> & -> & _).
    by rewrite E.
  - assert (∀ frame e,
              (receiveMessage deleteAfterReceiving frame wh).1.1 = Some e →
              messageEvents deleteAfterReceiving (frame :: f :: frames) wh
              = (let '(errs, wh', l) :=
                   messageEvents deleteAfterReceiving (f :: frames) wh in
                 (e :: errs, wh', l))) as Hskip.
    { intros frame e He. rewrite (messageEvents_cons frame).
      pose proof (receiveMessage_cases frame wh) as Hout.
      destruct (receiveMessage deleteAfterReceiving frame wh)
        as [[r wh1] l1].
      simpl in He. subst r. destruct Hout as (_ & _ & -> & -> & _).
      by destruct (messageEvents deleteAfterReceiving (f :: frames) wh)
        as [[errs wh2] l2]. }
    rewrite (messageEvents_cons f frames wh) in Hskip |- *.
    pose proof (receiveMessage_cases f wh) as Hout.
    destruct (receiveMessage deleteAfterReceiving f wh) as [[r wh1] l1].
    destruct Hout as (Hids & Hat & Hr).
    specialize (IH wh1).
    destruct (messageEvents deleteAfterReceiving frames wh1)
      as [[errs wh2] l2].
    destruct IH as (Hlen & Hids2 & Hat2 & Hl2 & _).
    split; [|split; [congruence|split; [by auto|split]]].
    + rewrite !length_app. destruct r as [e|].
      * destruct Hr as (_ & -> & _). simpl. lia.
      * destruct Hr as (m & h & _ & _ & ->). simpl. lia.
    + apply Forall_app. split; [|done]. destruct r as [e|].
      * destruct Hr as (_ & -> & _). done.
      * destruct Hr as (m & h & _ & _ & ->). repeat constructor.
        by eexists _, _.
    + intros frame e He. by rewrite (Hskip frame e He).
Qed.

End Exchange.

(** * The handshake that succeeds *)

Section Handshake.

Context {U : Type}.
Variable deleteAfterReceiving : gset string.
Variable ReadyTag : Tag.

Lemma wait_ready_skip (pre rest : list (Z * bytes)) :
  let wh : @WorkerHandler U :=
    mkWH {[ReadyTag := {[InitID := Some SignalReady]}]} ∅ in
  Forall (λ p, (p.1 < workerInitialConnectionTimeout)%Z
               ∧ match json.Unmarshal p.2 with
                 | inl m => ¬ (msgTag m = ReadyTag ∧ msgID m = InitID)
                 | inr _ => True
                 end) pre →
  wait_ready deleteAfterReceiving (pre ++ rest) wh
  = wait_ready deleteAfterReceiving rest wh.
Proof.
  intros wh Hpre. induction Hpre as [|[t frame] pre [Ht Hno] _ IH]; [done|].
  simpl in Ht, Hno. cbn [app wait_ready].
  destruct (Z.leb_spec workerInitialConnectionTimeout t) as [|_]; [lia|].
  destruct (receiveMessage_waiting (U := U) deleteAfterReceiving ReadyTag frame)
    as [e He].
  { intros m Hm. by rewrite Hm in Hno. }
  fold wh in He. rewrite He. simpl. rewrite IH.
  by destruct (wait_ready deleteAfterReceiving rest wh) as [[b wh2] l2].
Qed.

(** X11.  The handshake that succeeds: when the frames that arrive before
    the timer fires are first frames that are not the ready message, then a
    frame that decodes to [ReadyTag] and [InitID], [NewWorkerHandler]
    returns the handle and a nil error, having started the readiness
    closure once and nothing else; later frames are not awaited.  The
    readiness handler is gone from the registry returned exactly when
    [ReadyTag] is in [deleteAfterReceiving]; no other slot is filled and no
    counter is set. *)
Theorem NewWorkerHandler_succeeds (pre : list (Z * bytes)) (t : Z)
    (frame : bytes) (m : WorkerMessage) (rest : list (Z * bytes)) :
  Forall (λ p, (p.1 < workerInitialConnectionTimeout)%Z
               ∧ match json.Unmarshal p.2 with
                 | inl m' => ¬ (msgTag m' = ReadyTag ∧ msgID m' = InitID)
                 | inr _ => True
                 end) pre →
  (t < workerInitialConnectionTimeout)%Z →
  json.Unmarshal frame = inl m → msgTag m = ReadyTag → msgID m = InitID →
  ∃ wh : @WorkerHandler U,
    NewWorkerHandler deleteAfterReceiving ReadyTag
      (pre ++ (t, frame) :: rest)
    = ((Some wh, None), wh,
       [(wh, RunHandler (Some SignalReady) (msgData m))])
    ∧ handlerAt wh ReadyTag InitID
      = (if bool_decide (ReadyTag ∈ deleteAfterReceiving)
         then None else Some (Some SignalReady))
    ∧ (∀ tag id, ¬ (tag = ReadyTag ∧ id = InitID) → handlerAt wh tag id = None)
    ∧ handlerIDs wh = ∅.
Proof.
  intros Hpre Ht Hm Htag Hid.
  unfold NewWorkerHandler, bind. rewrite RegisterHandler_ready.
  rewrite (wait_ready_skip pre _ Hpre). cbn [wait_ready].
  destruct (Z.leb_spec workerInitialConnectionTimeout t) as [|_]; [lia|].
  set (wh0 := mkWH {[ReadyTag := {[InitID := Some SignalReady]}]} ∅).
  assert (handlerAt wh0 (msgTag m) (msgID m) = Some (Some SignalReady))
    as Hat0.
  { unfold handlerAt; simpl. rewrite Htag, Hid, lookup_singleton_eq; simpl.
    by rewrite lookup_singleton_eq. }
  pose proof (receiveMessage_cases deleteAfterReceiving frame wh0) as Hout.
  destruct (receiveMessage_found deleteAfterReceiving wh0 frame m
              (Some SignalReady) Hm Hat0) as (wh & Hr & Hat).
  rewrite Hr in Hout |- *. destruct Hout as (Hids & _ & _).
  simpl. exists wh. split; [done|]. split; [|split; [|done]].
  - rewrite Hat, Htag, Hid. by rewrite decide_True.
  - intros tag id Hne. rewrite Hat, Htag, Hid.
    rewrite decide_False by (intros []; apply Hne; done).
    unfold handlerAt; simpl.
    destruct (decide (tag = ReadyTag)) as [->|Hneq].
    + rewrite lookup_singleton_eq; simpl.
      apply lookup_singleton_ne. intros <-. tauto.
    + by rewrite lookup_singleton_ne.
Qed.

End Handshake.

(** * The options of a new worker *)

(** X12.  The options of a new worker hold exactly the arguments that are
    not empty: [type], [credentials] and [name] are present with the value
    given when it is not the empty string, and no other property is. *)
Theorem newWorkerOptions_lookup (workerType credentials name : string)
    (k : string) :
  newWorkerOptions workerType credentials name !! k
  = (if decide (k = "type") then
       if decide (workerType = EmptyString) then None else Some workerType
     else if decide (k = "credentials") then
       if decide (credentials = EmptyString) then None else Some credentials
     else if decide (k = "name") then
       if decide (name = EmptyString) then None else Some name
     else None).
Proof.
  unfold newWorkerOptions.
  destruct (decide (k = "type")) as [->|Ht];
    [|destruct (decide (k = "credentials")) as [->|Hc];
      [|destruct (decide (k = "name")) as [->|Hn]]];
    destruct (decide (workerType = EmptyString)) as [->|?];
    destruct (decide (credentials = EmptyString)) as [->|?];
    destruct (decide (name = EmptyString)) as [->|?];
    repeat (first [rewrite bool_decide_eq_true_2 by done
                  |rewrite bool_decide_eq_false_2 by (by intros [])]);
    repeat (first [rewrite lookup_insert_eq
                  |rewrite lookup_insert_ne by done]);
    try done.
Qed.

(** * More on decoding *)

Module json_key_facts.
Import json.

(** A small letter of a field name against any byte: equal up to
    [caseMask] means equal after lower-casing. *)
Lemma fold_case_letter (n c : ascii) :
  n ∈ lit "tagid" →
  fold_case n = fold_case c ↔ lower c = n.
Proof.
  intros Hn. simpl in Hn.
  repeat (apply elem_of_cons in Hn as [->|Hn]);
    [..|by apply elem_of_nil in Hn];
    destruct c as [[] [] [] [] [] [] [] []]; vm_compute;
    split; intros H; first [reflexivity|discriminate H].
Qed.

Lemma fold_case_name (name k : bytes) :
  Forall (λ n, n ∈ lit "tagid") name →
  fold_case <$> name = fold_case <$> k ↔ lower <$> k = name.
Proof.
  intros Hname. revert k.
  induction Hname as [|n name Hn _ IH]; intros k.
  - destruct k; simpl; split; (done || discriminate).
  - destruct k as [|c k]; [split; discriminate|].
    rewrite !fmap_cons. split.
    + intros [= H1 H2]. f_equal; [by apply fold_case_letter|by apply IH].
    + intros [= H1 H2]. f_equal; [by apply fold_case_letter|by apply IH].
Qed.

Lemma simpleLetterEqualFold_lower (name : string) (k : bytes) :
  Forall (λ n, n ∈ lit "tagid") (lit name) →
  simpleLetterEqualFold (lit name) k = bool_decide (lower <$> k = lit name).
Proof.
  intros Hname. unfold simpleLetterEqualFold.
  apply bool_decide_ext. by apply fold_case_name.
Qed.

Lemma lower_idemp (c : ascii) : lower (lower c) = lower c.
Proof. by destruct c as [[] [] [] [] [] [] [] []]. Qed.

End json_key_facts.

(** X14.  Keys are matched without regard to letter case: a key selects
    the field whose name is its ASCII lower-case form, and no field when
    that is none of [tag], [id] and [data]; a member decodes the same under
    a key and under its lower-case form. *)
Theorem find_field_lower (k : bytes) :
  json.find_field k
  = (if bool_decide (json.lower <$> k = lit "tag") then Some json.FTag
     else if bool_decide (json.lower <$> k = lit "id") then Some json.FID
     else if bool_decide (json.lower <$> k = lit "data") then Some json.FData
     else None)
  ∧ ∀ t v, json.decode_member t (k, v) = json.decode_member t (json.lower <$> k, v).
Proof.
  assert (∀ k', json.find_field k'
          = (if bool_decide (json.lower <$> k' = lit "tag") then Some json.FTag
             else if bool_decide (json.lower <$> k' = lit "id") then Some json.FID
             else if bool_decide (json.lower <$> k' = lit "data") then Some json.FData
             else None)) as H.
  { intros k'. unfold json.find_field.
    rewrite !json_key_facts.simpleLetterEqualFold_lower; [done|..];
      simpl; repeat constructor;
      repeat (first [by left|right]). }
  split; [apply H|].
  intros t v. unfold json.decode_member. rewrite (H k), (H (json.lower <$> k)).
  rewrite <- list_fmap_compose.
  by rewrite (list_fmap_ext (json.lower ∘ json.lower) json.lower k)
    by (intros ? c _; apply json_key_facts.lower_idemp).
Qed.

Module json_member_facts.
Import json.

(** A member whose key selects no field changes nothing. *)
Lemma decode_members_filter (ms : list (bytes * value)) :
  ∀ t, decode_members t ms
       = decode_members t (filter (λ m, is_Some (find_field m.1)) ms).
Proof.
  induction ms as [|[k v] ms IH]; intros t; [done|].
  destruct (find_field k) as [f|] eqn:Hk.
  - rewrite filter_cons_True by (simpl; rewrite Hk; by eexists).
    cbn [decode_members].
    destruct (decode_member t (k, v)) as [t'|e]; [apply IH|done].
  - rewrite filter_cons_False by (simpl; rewrite Hk; by intros [? ?]).
    cbn [decode_members]. unfold decode_member. rewrite Hk. apply IH.
Qed.

(** A number that is no [uint64] under the key of the ID stops the
    decoding, wherever it stands in the object. *)
Lemma decode_members_bad_id (k l : bytes) (ms : list (bytes * value)) :
  find_field k = Some FID →
  strconv.ParseUint l 64 = None →
  (k, JNum l) ∈ ms →
  ∀ t, ∃ e, decode_members t ms = inr e.
Proof.
  intros Hk Hl. induction ms as [|m ms IH]; intros Hin t.
  - by apply elem_of_nil in Hin.
  - cbn [decode_members].
    destruct (decode_member t m) as [t'|e] eqn:Hm; [|by eexists].
    apply elem_of_cons in Hin as [<-|Hin]; [|by apply IH].
    unfold decode_member in Hm. by rewrite Hk, Hl in Hm.
Qed.

End json_member_facts.

Section DecodeDispatch.

Context {U : Type}.
Variable deleteAfterReceiving : gset string.

(** X13.  Members under keys that name no field are ignored: two frames
    that are objects with the same members under keys that select a field,
    in the same order, decode to the same message or the same error, and
    [receiveMessage] treats them alike. *)
Theorem unknown_keys_are_ignored (frame1 frame2 : bytes)
    (ms1 ms2 : list (bytes * json.value)) :
  json.parse frame1 = Some (json.JObj ms1) →
  json.parse frame2 = Some (json.JObj ms2) →
  filter (λ m, is_Some (json.find_field m.1)) ms1
  = filter (λ m, is_Some (json.find_field m.1)) ms2 →
  json.Unmarshal frame1 = json.Unmarshal frame2
  ∧ ∀ wh : @WorkerHandler U,
      receiveMessage deleteAfterReceiving frame1 wh
      = receiveMessage deleteAfterReceiving frame2 wh.
Proof.
  intros H1 H2 Hfilter.
  assert (json.Unmarshal frame1 = json.Unmarshal frame2) as Heq.
  { unfold json.Unmarshal. rewrite H1, H2.
    rewrite (json_member_facts.decode_members_filter ms1).
    rewrite (json_member_facts.decode_members_filter ms2).
    by rewrite Hfilter. }
  split; [done|]. intros wh. unfold receiveMessage. by rewrite Heq.
Qed.

(** X15.  An ID that is no [uint64] is refused, not truncated: when a
    frame is an object with a number under the key of the ID that
    [strconv.ParseUint] rejects at 64 bits (2^64 and above, a sign, a
    fraction or an exponent), [json.Unmarshal] returns an error, and
    [receiveMessage] returns it without any change to the registry and
    without starting a handler. *)
Theorem id_out_of_range_is_refused (frame : bytes)
    (ms : list (bytes * json.value)) (k l : bytes) (wh : @WorkerHandler U) :
  json.parse frame = Some (json.JObj ms) →
  (k, json.JNum l) ∈ ms →
  json.find_field k = Some json.FID →
  strconv.ParseUint l 64 = None →
  ∃ e, json.Unmarshal frame = inr e
       ∧ receiveMessage deleteAfterReceiving frame wh
         = (Some (ErrUnmarshal e), wh, []).
Proof.
  intros Hparse Hin Hk Hl.
  destruct (json_member_facts.decode_members_bad_id k l ms Hk Hl Hin
              json.zero_target) as [e He].
  exists e.
  assert (json.Unmarshal frame = inr e) as Hu.
  { unfold json.Unmarshal. by rewrite Hparse, He. }
  split; [done|]. unfold receiveMessage. by rewrite Hu.
Qed.

End DecodeDispatch.

(** * Tags that are not valid UTF-8 *)

Module json_coerce_facts.
Import json.

Lemma string_body_ufffd (fuel : nat) (X : list ascii) :
  string_body (S fuel) (lit "\ufffd" ++ X)
  = prepend (utf8.EncodeRune utf8.RuneError) (string_body fuel X).
Proof. reflexivity. Qed.

(** What the encoder writes for any string, followed by a quote, is read
    by the decoder as some string. *)
Lemma string_body_string_loop_any (n : nat) :
  ∀ (s : list ascii) (fuel : nat) (X : list ascii),
    (length s ≤ n)%nat →
    (length (string_loop n s) < fuel)%nat →
    ∃ s', string_body fuel (string_loop n s ++ quote :: X) = Some (s', X).
Proof.
  induction n as [|n IH]; intros s fuel X Hlen Hfuel.
  - destruct s; [|simpl in Hlen; lia]. simpl.
    destruct fuel; [simpl in Hfuel; lia|]. exists [].
    apply json_string_facts.string_body_quote.
  - destruct s as [|c r].
    { simpl. destruct fuel; [simpl in Hfuel; lia|]. exists [].
      apply json_string_facts.string_body_quote. }
    simpl in Hlen. cbn [string_loop] in *.
    destruct (N.ltb_spec (code c) 0x80) as [Hc|Hc].
    + rewrite length_app in Hfuel. rewrite <- app_assoc.
      destruct (htmlSafe c) eqn:Hsafe.
      * destruct fuel; [lia|]. simpl app.
        rewrite json_string_facts.string_body_safe by done.
        destruct (IH r fuel X) as [s' ->]; [lia|simpl in Hfuel; lia|].
        by eexists.
      * destruct fuel; [lia|].
        rewrite json_string_facts.escape_unescape by done.
        destruct (IH r fuel X) as [s' ->]; [lia| |by eexists].
        assert (1 ≤ length (escape c))%nat by (unfold escape; simpl; lia).
        lia.
    + destruct (utf8.DecodeRune (c :: r)) as [rn size] eqn:Hdec.
      destruct ((rn =? utf8.RuneError) && (size =? 1)%nat) eqn:Herr.
      * rewrite <- app_assoc. rewrite length_app in Hfuel.
        destruct fuel; [lia|].
        rewrite string_body_ufffd.
        destruct (IH r fuel X) as [s' ->]; [lia|simpl in Hfuel; lia|].
        by eexists.
      * assert (¬ (rn = utf8.RuneError ∧ size = 1%nat)) as Hok.
        { intros [-> ->]. by rewrite N.eqb_refl in Herr. }
        destruct (utf8_facts.DecodeRune_EncodeRune c r rn size Hc Hdec Hok)
          as (Henc & Hlen' & Hsz & Hrn & _).
        assert (length (drop size (c :: r)) ≤ n)%nat as Hlen''.
        { rewrite length_drop. simpl. lia. }
        destruct ((rn =? 0x2028) || (rn =? 0x2029)) eqn:Hsep.
        -- rewrite <- !app_assoc.
           destruct fuel; [simpl in Hfuel; lia|].
           rewrite json_string_facts.string_body_u202.
           2:{ apply orb_true_iff in Hsep as [H|H]; apply N.eqb_eq in H;
               auto. }
           destruct (IH (drop size (c :: r)) fuel X) as [s' ->];
             [done| |by eexists].
           rewrite !length_app in Hfuel. simpl in Hfuel. lia.
        -- rewrite <- app_assoc.
           destruct fuel; [rewrite length_app in Hfuel; lia|].
           rewrite (json_string_facts.string_body_rune c r rn size) by done.
           destruct (IH (drop size (c :: r)) fuel X) as [s' ->];
             [done| |by eexists].
           rewrite length_app in Hfuel. lia.
Qed.

Lemma parse_members_tag_any (f : nat) (s X : list ascii)
    (ms : list (list ascii * value)) (rest : list ascii) :
  parse_members (S f) 1 X = Some (ms, rest) →
  ∃ s',
    parse_members (S (S f)) 1
      (quote :: lit "tag" ++ quote :: ":"%char ::
         encode_string s ++ ","%char :: X)
    = Some ((lit "tag", JStr s') :: ms, rest).
Proof.
  intros Hms.
  destruct (string_body_string_loop_any (length s) s
              (S (length (string_loop (length s) s ++ quote :: ","%char :: X)))
              (","%char :: X)) as [s' Hs'].
  { done. }
  { rewrite length_app. simpl. lia. }
  exists s'. apply json_parse_facts.parse_members_cons; [| |done].
  - apply json_parse_facts.string_literal_plain. by repeat constructor.
  - unfold encode_string. cbn [app]. rewrite <- app_assoc.
    by apply json_parse_facts.parse_value_string.
Qed.

Lemma parse_Marshal_any (msg : WorkerMessage) :
  msgID msg < uint64_modulus →
  ∃ s',
    parse (Marshal msg)
    = Some (JObj [(lit "tag", JStr s');
                  (lit "id", JNum (strconv.FormatUint (msgID msg)));
                  (lit "data", data_value (msgData msg))]).
Proof.
  intros Hid. unfold parse.
  assert (∃ f, length (Marshal msg) = S (S (S (S f)))) as [f ->].
  { rewrite json_parse_facts.Marshal_text. simpl. eauto. }
  rewrite json_parse_facts.Marshal_text, json_parse_facts.parse_value_object.
  change (maxNestingDepth <=? 0) with false. change (0 + 1) with 1.
  cbv iota.
  destruct (parse_members_tag_any (S (S f)) (lit (msgTag msg))
              (quote :: lit "id" ++ quote :: ":"%char ::
                 strconv.FormatUint (msgID msg) ++ ","%char ::
                 (quote :: lit "data" ++ quote :: ":"%char ::
                    encode_bytes (msgData msg) ++ "}"%char :: []))
              [(lit "id", JNum (strconv.FormatUint (msgID msg)));
               (lit "data", data_value (msgData msg))] [])
    as [s' Hs'].
  { apply json_parse_facts.parse_members_id; [done|].
    apply json_parse_facts.parse_members_data. }
  exists s'. by rewrite Hs'.
Qed.

End json_coerce_facts.

(** X16.  What [json.Marshal] writes for a message is always accepted by
    [json.Unmarshal], with the same ID and the same payload, also when the
    tag is not valid UTF-8; the tag comes back unchanged when it is
    valid. *)
Theorem Marshal_is_always_decoded (msg : WorkerMessage) :
  msgID msg < uint64_modulus →
  ∃ tag',
    json.Unmarshal (json.Marshal msg)
    = inl (mkMsg tag' (msgID msg) (msgData msg))
    ∧ (utf8.ValidString (msgTag msg) = true → tag' = msgTag msg).
Proof.
  intros Hid.
  destruct (json_coerce_facts.parse_Marshal_any msg Hid) as [s' Hparse].
  pose proof (json_decode_facts.decode_members_Marshal
                (mkMsg (string_of_list_ascii s') (msgID msg) (msgData msg))
                Hid) as (t & Ht & Hmsg).
  cbn [msgTag msgID msgData] in Ht. unfold lit in Ht at 2.
  rewrite list_ascii_of_string_of_list_ascii in Ht.
  exists (string_of_list_ascii s').
  assert (json.Unmarshal (json.Marshal msg)
          = inl (mkMsg (string_of_list_ascii s') (msgID msg) (msgData msg)))
    as Hu.
  { unfold json.Unmarshal. by rewrite Hparse, Ht, Hmsg. }
  split; [done|]. intros Hvalid.
  rewrite json_loop_facts.Unmarshal_of_Marshal in Hu by done.
  injection Hu as Hu. apply (f_equal msgTag) in Hu. by simpl in Hu.
Qed.

Section OneShot.

Context {U : Type}.
Variable deleteAfterReceiving : gset string.

(** X17.  A request and its reply leave no handler behind for a one-shot
    tag: when the tag is in [deleteAfterReceiving], the slot at the tag's
    counter is free and the tag has no empty map, then after [SendMessage]
    with a handler and [receiveMessage] on the reply the map of handlers is
    the one before the request; only the tag's counter has moved, by
    one. *)
Theorem one_shot_exchange_leaves_no_handler (wh : @WorkerHandler U)
    (tag : string) (data : option bytes) (cb : Callback) (reply : bytes)
    (m : WorkerMessage) :
  tag ∈ deleteAfterReceiving →
  handlers wh !! tag ≠ Some ∅ →
  handlerAt wh tag (nextID wh tag) = None →
  json.Unmarshal reply = inl m → msgTag m = tag → msgID m = nextID wh tag →
  let wh1 := (SendMessage tag data (Some cb) wh).1.2 in
  let '(r, wh2, l) := receiveMessage deleteAfterReceiving reply wh1 in
  r = None
  ∧ l = [(wh2, RunHandler (Some cb) (msgData m))]
  ∧ handlers wh2 = handlers wh
  ∧ handlerIDs wh2 = <[tag := uint64_incr (nextID wh tag)]> (handlerIDs wh).
Proof.
  intros Hin Hwf Hfree Hm Htag Hid.
  rewrite SendMessage_handler, RegisterHandler_auto. cbn [fst snd].
  cbv zeta. unfold receiveMessage. rewrite Hm, Htag, Hid.
  unfold bind, go, ret. rewrite getHandler_spec.
  set (i := nextID wh tag) in *.
  set (hs := default ∅ (handlers wh !! tag)).
  assert (hs !! i = None) as Hhs.
  { unfold handlerAt in Hfree. subst hs.
    destruct (handlers wh !! tag) as [hs|]; [done|apply lookup_empty]. }
  unfold registered at 1. cbn [handlers set_handlers set_handlerIDs].
  fold hs. rewrite lookup_insert_eq, lookup_insert_eq.
  rewrite bool_decide_eq_true_2 by done. cbn [fst snd].
  split; [done|]. split; [done|].
  unfold removed. rewrite delete_insert_id by done.
  unfold registered. cbn [handlers handlerIDs set_handlers set_handlerIDs].
  fold hs.
  destruct (bool_decide_reflect (size hs = 0%nat)) as [Hsz|Hsz];
    cbn [handlers handlerIDs set_handlers].
  - split; [|done]. apply map_size_empty_inv in Hsz.
    rewrite delete_insert_eq. apply delete_id.
    subst hs. destruct (handlers wh !! tag) as [hs'|]; [|done].
    simpl in Hsz. congruence.
  - split; [|done]. rewrite insert_insert_eq. apply insert_id.
    subst hs. destruct (handlers wh !! tag) as [hs'|]; [done|].
    exfalso. apply Hsz. apply map_size_empty.
Qed.

End OneShot.

(** * The payload written as an array of numbers *)

Module json_array_facts.
Import json.

Lemma store_elem_byte (sl : slice) (i : nat) (b : ascii) :
  store_elem sl i (JNum (strconv.FormatUint (code b)))
  = inl (mkSlice (<[i := b]> (arr sl)) (len sl)).
Proof.
  pose proof (code_lt b) as Hb.
  assert (code b < 2 ^ 64) as Hb'.
  { change (2 ^ 64) with 18446744073709551616. lia. }
  unfold store_elem.
  rewrite (strconv_facts.ParseUint_written (code b) _
             (strconv_facts.FormatUint_written _ Hb') Hb').
  destruct (N.ltb_spec (code b) 256); [|lia]. by rewrite chr_code.
Qed.

(** The slice made ready for index [i]. *)
Lemma grow_spec (sl : slice) (i : nat) :
  (len sl ≤ length (arr sl))%nat → (i ≤ len sl)%nat →
  (i < length (arr (grow sl i)))%nat
  ∧ (S i ≤ len (grow sl i) ≤ length (arr (grow sl i)))%nat
  ∧ take i (arr (grow sl i)) = take i (arr sl).
Proof.
  intros Hcap Hi. unfold grow. cbn [arr len].
  destruct (Nat.leb_spec (length (arr sl)) i) as [Hfull|Hroom].
  - assert (len sl = i ∧ length (arr sl) = i) as [Hl Hc] by lia.
    rewrite Hl, Hc. rewrite Nat.leb_refl.
    rewrite length_app, length_take, length_replicate, Hc.
    destruct (Nat.ltb_spec (i + i / 2) 4) as [Hsmall|Hbig].
    + split; [lia|split; [lia|]].
      rewrite take_app_le by (rewrite length_take; lia).
      by rewrite take_take, Nat.min_id.
    + assert (1 ≤ i / 2)%nat.
      { pose proof (Nat.div_mod_eq i 2).
        pose proof (Nat.mod_upper_bound i 2). lia. }
      split; [lia|split; [lia|]].
      rewrite take_app_le by (rewrite length_take; lia).
      by rewrite take_take, Nat.min_id.
  - split; [done|split; [|done]].
    destruct (Nat.leb_spec (len sl) i); lia.
Qed.

Lemma array_loop_bytes (bs : list ascii) :
  ∀ (i : nat) (sl : slice),
    (len sl ≤ length (arr sl))%nat → (i ≤ len sl)%nat →
    ∃ sl',
      array_loop ((λ b, JNum (strconv.FormatUint (code b))) <$> bs) i sl
      = inl ((i + length bs)%nat, sl')
      ∧ (i + length bs ≤ len sl' ≤ length (arr sl'))%nat
      ∧ take (i + length bs) (arr sl') = take i (arr sl) ++ bs.
Proof.
  induction bs as [|b bs IH]; intros i sl Hcap Hi.
  - exists sl. simpl. rewrite Nat.add_0_r, app_nil_r. done.
  - rewrite fmap_cons. cbn [array_loop]. rewrite store_elem_byte.
    destruct (grow_spec sl i Hcap Hi) as (Hlt & Hlen & Htake).
    destruct (IH (S i) (mkSlice (<[i := b]> (arr (grow sl i)))
                          (len (grow sl i)))) as (sl' & -> & Hlen' & Htake').
    { cbn [arr len]. rewrite length_insert. lia. }
    { cbn [len]. lia. }
    exists sl'. cbn [arr len length] in *.
    replace (i + S (length bs))%nat with (S i + length bs)%nat by lia.
    split; [done|split; [done|]].
    rewrite Htake'. rewrite (take_S_r _ _ b) by (apply list_lookup_insert_eq; lia).
    rewrite take_insert_ge by lia. rewrite Htake. by rewrite <- app_assoc.
Qed.

Lemma decode_array_bytes (bs : list ascii) :
  ∃ sl,
    decode_array ((λ b, JNum (strconv.FormatUint (code b))) <$> bs) None
    = inl sl
    ∧ take (len sl) (arr sl) = bs.
Proof.
  unfold decode_array. cbn [default].
  destruct (array_loop_bytes bs 0 (mkSlice [] 0)) as (sl' & -> & Hlen & Htake);
    [done..|].
  cbn [Nat.add] in *.
  destruct (Nat.eqb_spec (length bs) 0) as [Hz|Hnz].
  - exists (mkSlice [] 0). split; [done|].
    destruct bs; [done|discriminate].
  - eexists. split; [done|]. cbn [arr len].
    destruct (Nat.ltb_spec (length bs) (len sl')).
    + by rewrite Htake.
    + replace (len sl') with (length bs) by lia. by rewrite Htake.
Qed.

End json_array_facts.

(** X18.  The payload may come as an array of numbers instead of a
    base64 string: when the last member of the object is, under a key of
    the data field, the array of the decimal values of some bytes, and no
    member before it sets the data, the frame decodes to those bytes (the
    empty array to the empty payload that is not nil). *)
Theorem data_array_is_decoded (frame : bytes)
    (ms : list (bytes * json.value)) (k : bytes) (bs : bytes)
    (t : json.target) :
  json.parse frame
  = Some (json.JObj
            (ms ++ [(k, json.JArr
                          ((λ b, json.JNum (strconv.FormatUint (code b)))
                             <$> bs))])) →
  json.find_field k = Some json.FData →
  json.decode_members json.zero_target ms = inl t →
  json.tData t = None →
  json.Unmarshal frame
  = inl (mkMsg (string_of_list_ascii (json.tTag t)) (json.tID t) (Some bs)).
Proof.
  intros Hparse Hk Hms Hdata.
  unfold json.Unmarshal. rewrite Hparse.
  assert (∀ ms1 ms2 t0 t1,
            json.decode_members t0 ms1 = inl t1 →
            json.decode_members t0 (ms1 ++ ms2) = json.decode_members t1 ms2)
    as Happ.
  { induction ms1 as [|m1 ms1 IH]; intros ms2 t0 t1 H.
    - by injection H as <-.
    - cbn [app json.decode_members] in *.
      destruct (json.decode_member t0 m1); [by apply IH|discriminate]. }
  rewrite (Happ _ _ _ _ Hms). cbn [json.decode_members].
  unfold json.decode_member. rewrite Hk, Hdata.
  destruct (json_array_facts.decode_array_bytes bs) as (sl & -> & Hsl).
  unfold json.message_of. cbn [json.tTag json.tID json.tData fmap option_fmap option_map].
  by rewrite Hsl.
Qed.

(** * The further facts on concrete inputs *)

(** A run of [calls_for_other_tags]: calls for "Ready" and "x" leave the
    map and the counter of "echo" alone. *)
Lemma calls_for_other_tags_witness :
  let wh : @WorkerHandler N :=
    mkWH {["echo" := {[0 := Some (UserFn 7)]}]} {["echo" := 1]} in
  let wh' :=
    (run_calls {["Ready"]}
       [Register "Ready" 0 false (Some SignalReady);
        Register "x" 0 true None; GetHandler "Ready" 0] wh).1.2 in
  handlers wh' !! "echo" = handlers wh !! "echo"
  ∧ handlerIDs wh' !! "echo" = handlerIDs wh !! "echo".
Proof.
  intros wh wh'.
  destruct (calls_for_other_tags (U := N) {["Ready"]}
              [Register "Ready" 0 false (Some SignalReady);
               Register "x" 0 true None; GetHandler "Ready" 0] wh "echo")
    as (H1 & H2 & _).
  - repeat constructor; done.
  - exact (conj H1 H2).
Defined.

(** A run of [persistent_handler_stays]: "echo" is not a one-shot tag, and
    its handler is looked up twice. *)
Lemma persistent_handler_stays_witness :
  let wh : @WorkerHandler N :=
    mkWH {["echo" := {[0 := Some (UserFn 7)]}]} {["echo" := 1]} in
  let wh' :=
    (run_calls {["Ready"]}
       [GetHandler "echo" 0; Register "x" 0 true None; GetHandler "echo" 0]
       wh).1.2 in
  handlerAt wh' "echo" 0 = Some (Some (UserFn 7)).
Proof.
  intros wh wh'.
  destruct (persistent_handler_stays (U := N) {["Ready"]}
              [GetHandler "echo" 0; Register "x" 0 true None;
               GetHandler "echo" 0] wh "echo" 0 (Some (UserFn 7)))
    as (_ & H).
  - vm_compute. intros H. discriminate H.
  - reflexivity.
  - apply H. repeat constructor.
Defined.

(** A run of [no_tag_without_handler] from the empty registry: the only
    handler of the one-shot tag "Ready" is consumed, and the tag is gone. *)
Lemma no_tag_without_handler_witness :
  let wh' : @WorkerHandler N :=
    (run_calls {["Ready"]}
       [Register "Ready" 0 false (Some SignalReady); GetHandler "Ready" 0]
       emptyWH).1.2 in
  handlers wh' !! "Ready" ≠ Some ∅.
Proof.
  intros wh'.
  apply (no_tag_without_handler (U := N) {["Ready"]}
           [Register "Ready" 0 false (Some SignalReady);
            GetHandler "Ready" 0] emptyWH).
  intros tag. simpl. rewrite lookup_empty. discriminate.
Defined.

(** A run of [next_auto_slot_is_free]: three requests for "echo", one of
    them answered. *)
Lemma next_auto_slot_is_free_witness :
  let wh' : @WorkerHandler N :=
    (run_calls {["echo"]}
       [Register "echo" 0 true None; Register "echo" 0 true None;
        GetHandler "echo" 0; Register "echo" 0 true None] emptyWH).1.2 in
  handlerAt wh' "echo" (nextID wh' "echo") = None.
Proof.
  intros wh'.
  apply (next_auto_slot_is_free (U := N) {["echo"]}
           [Register "echo" 0 true None; Register "echo" 0 true None;
            GetHandler "echo" 0; Register "echo" 0 true None] "echo").
  - repeat constructor.
  - vm_compute. reflexivity.
Defined.

(** A run of [two_requests_two_replies] on the empty registry. *)
Lemma two_requests_two_replies_witness :
  ∃ wh2 wh3 wh4 : @WorkerHandler N,
    receiveMessage {["Ready"]}
      (json.Marshal (mkMsg "echo" 1 (Some (lit "two")))) wh2
    = (None, wh3, [(wh3, RunHandler (Some (UserFn 8)) (Some (lit "two")))])
    ∧ receiveMessage {["Ready"]}
        (json.Marshal (mkMsg "echo" 0 (Some (lit "one")))) wh3
      = (None, wh4, [(wh4, RunHandler (Some (UserFn 7)) (Some (lit "one")))]).
Proof.
  destruct (two_requests_two_replies (U := N) {["Ready"]} emptyWH "echo"
              None None (UserFn 7) (UserFn 8)
              (json.Marshal (mkMsg "echo" 0 (Some (lit "one"))))
              (json.Marshal (mkMsg "echo" 1 (Some (lit "two"))))
              (mkMsg "echo" 0 (Some (lit "one")))
              (mkMsg "echo" 1 (Some (lit "two"))))
    as (wh1 & wh2 & _ & _ & _ & _ & wh3 & wh4 & H); [vm_compute; reflexivity..|].
  by exists wh2, wh3, wh4.
Defined.

(** A run of [posted_frame_comes_back]. *)
Lemma posted_frame_comes_back_witness :
  ∃ (wh' wh'' : @WorkerHandler N) (payload : bytes),
    SendMessage "echo" (Some (lit "hi")) (Some (UserFn 7)) emptyWH
    = (tt, wh', [(wh', PostMessage payload)])
    ∧ receiveMessage {["Ready"]} payload wh'
      = (None, wh'', [(wh'', RunHandler (Some (UserFn 7)) (Some (lit "hi")))]).
Proof.
  apply (posted_frame_comes_back (U := N) {["Ready"]} emptyWH "echo"
           (Some (lit "hi")) (UserFn 7)); vm_compute; reflexivity.
Defined.

(** A run of [NewWorkerHandler_succeeds]: a frame without a tag, then the
    ready frame, then a frame that the constructor does not wait for. *)
Lemma NewWorkerHandler_succeeds_witness :
  ∃ wh : @WorkerHandler N,
    NewWorkerHandler {["Ready"]} "Ready"
      [(5%Z, lit "{}");
       (9%Z, json.Marshal (mkMsg "Ready" 0 None));
       (11%Z, json.Marshal (mkMsg "echo" 0 None))]
    = ((Some wh, None), wh, [(wh, RunHandler (Some SignalReady) None)])
    ∧ handlerAt wh "Ready" InitID = None.
Proof.
  destruct (NewWorkerHandler_succeeds (U := N) {["Ready"]} "Ready"
              [(5%Z, lit "{}")] 9%Z
              (json.Marshal (mkMsg "Ready" 0 None))
              (mkMsg "Ready" 0 None)
              [(11%Z, json.Marshal (mkMsg "echo" 0 None))])
    as (wh & H1 & H2 & _).
  - repeat constructor. vm_compute. intros [H _]. discriminate H.
  - reflexivity.
  - vm_compute. reflexivity.
  - reflexivity.
  - reflexivity.
  - exists wh. exact (conj H1 H2).
Defined.

(** A run of [unknown_keys_are_ignored]: the second frame has a member
    more, under a key that names no field. *)
Lemma unknown_keys_are_ignored_witness :
  json.Unmarshal
    (lit "{" ++ json.key "tag" ++ json.encode_string (lit "echo")
     ++ lit "," ++ json.key "id" ++ lit "3}")
  = json.Unmarshal
      (lit "{" ++ json.key "extra" ++ lit "true,"
       ++ json.key "tag" ++ json.encode_string (lit "echo")
       ++ lit "," ++ json.key "id" ++ lit "3}").
Proof.
  apply (unknown_keys_are_ignored (U := N) {["Ready"]}
           (lit "{" ++ json.key "tag" ++ json.encode_string (lit "echo")
            ++ lit "," ++ json.key "id" ++ lit "3}")
           (lit "{" ++ json.key "extra" ++ lit "true,"
            ++ json.key "tag" ++ json.encode_string (lit "echo")
            ++ lit "," ++ json.key "id" ++ lit "3}")
           [(lit "tag", json.JStr (lit "echo"));
            (lit "id", json.JNum (lit "3"))]
           [(lit "extra", json.JBool true);
            (lit "tag", json.JStr (lit "echo"));
            (lit "id", json.JNum (lit "3"))]);
    vm_compute; reflexivity.
Defined.

(** A run of [id_out_of_range_is_refused]: the ID is 2^64. *)
Lemma id_out_of_range_is_refused_witness :
  ∃ e,
    json.Unmarshal (lit "{" ++ json.key "id" ++ lit "18446744073709551616}")
    = inr e
    ∧ receiveMessage {["Ready"]}
        (lit "{" ++ json.key "id" ++ lit "18446744073709551616}")
        (emptyWH (U := N))
      = (Some (ErrUnmarshal e), emptyWH, []).
Proof.
  apply (id_out_of_range_is_refused (U := N) {["Ready"]}
           (lit "{" ++ json.key "id" ++ lit "18446744073709551616}")
           [(lit "id", json.JNum (lit "18446744073709551616"))]
           (lit "id") (lit "18446744073709551616") emptyWH).
  - vm_compute. reflexivity.
  - left.
  - reflexivity.
  - vm_compute. reflexivity.
Defined.

(** A run of [Marshal_is_always_decoded] on a tag that is the byte 0xFF. *)
Lemma Marshal_is_always_decoded_witness :
  ∃ tag',
    json.Unmarshal
      (json.Marshal (mkMsg (String (chr 255) EmptyString) 7
                       (Some (lit "hi"))))
    = inl (mkMsg tag' 7 (Some (lit "hi"))).
Proof.
  destruct (Marshal_is_always_decoded
              (mkMsg (String (chr 255) EmptyString) 7 (Some (lit "hi"))))
    as (tag' & H & _).
  - reflexivity.
  - by exists tag'.
Defined.

(** A run of [one_shot_exchange_leaves_no_handler] on the empty registry,
    with "echo" a one-shot tag. *)
Lemma one_shot_exchange_leaves_no_handler_witness :
  let wh1 : @WorkerHandler N :=
    (SendMessage "echo" None (Some (UserFn 7)) emptyWH).1.2 in
  let '(r, wh2, l) :=
    receiveMessage {["echo"]}
      (json.Marshal (mkMsg "echo" 0 (Some (lit "ok")))) wh1 in
  r = None
  ∧ l = [(wh2, RunHandler (Some (UserFn 7)) (Some (lit "ok")))]
  ∧ handlers wh2 = ∅
  ∧ handlerIDs wh2 = <["echo" := 1]> ∅.
Proof.
  apply (one_shot_exchange_leaves_no_handler (U := N) {["echo"]} emptyWH
           "echo" None (UserFn 7)
           (json.Marshal (mkMsg "echo" 0 (Some (lit "ok"))))
           (mkMsg "echo" 0 (Some (lit "ok")))).
  - vm_compute. reflexivity.
  - simpl. rewrite lookup_empty. discriminate.
  - reflexivity.
  - vm_compute. reflexivity.
  - reflexivity.
  - reflexivity.
Defined.

(** A run of [data_array_is_decoded]: the payload "hi" as [104,105]. *)
Lemma data_array_is_decoded_witness :
  json.Unmarshal
    (lit "{" ++ json.key "tag" ++ json.encode_string (lit "echo")
     ++ lit "," ++ json.key "data" ++ lit "[104,105]}")
  = inl (mkMsg "echo" 0 (Some (lit "hi"))).
Proof.
  apply (data_array_is_decoded
           (lit "{" ++ json.key "tag" ++ json.encode_string (lit "echo")
            ++ lit "," ++ json.key "data" ++ lit "[104,105]}")
           [(lit "tag", json.JStr (lit "echo"))] (lit "data") (lit "hi")
           (json.mkTarget (lit "echo") 0 None));
    vm_compute; reflexivity.
Defined.
